(** * OpenStackAmuletDeployment: a shallow embedding and its properties

  Source: charmhelpers/contrib/openstack/amulet/deployment.py

  The Python class is embedded as functions in a small state-and-exception
  monad.  The state holds the Python heap that the methods share with their
  caller (service dictionaries and lists of references to them), the
  attributes that [_get_openstack_release] assigns on [self] at run time,
  the state of the deployment driver [self.d], and the trace of the calls
  made to that driver.  Logger output is observability only and is not
  part of the state. *)

From stdpp Require Import gmap strings list fin_maps.

Open Scope string_scope.
Open Scope list_scope.
Open Scope Z_scope.

(** ** Python values used by the module *)

Module Py.

(** [str(x)] for a value that is [None] or a string, as used by
    [str.format] and the [%s] operator. *)
Definition str (x : option string) : string :=
  match x with
  | Some s => s
  | None => "None"
  end.

(** Truth value of [None] or a string: only a non-empty string is true. *)
Definition truthy (x : option string) : bool :=
  match x with
  | Some "" => false
  | Some _ => true
  | None => false
  end.

(** Truth value of [None] or a list: only a non-empty list is true. *)
Definition truthy_list {A} (x : option (list A)) : bool :=
  match x with
  | Some (_ :: _) => true
  | _ => false
  end.

(** [sep] is a prefix of [s]. *)
Fixpoint starts_with (sep s : string) : bool :=
  match sep, s with
  | EmptyString, _ => true
  | String a sep', String b s' => if Ascii.eqb a b then starts_with sep' s' else false
  | String _ _, EmptyString => false
  end.

(** [split_from sep s skip cur]: scan [s] left to right.  [skip] counts the
    characters of a separator occurrence that are still to be dropped and
    [cur] is the piece being collected. *)
Fixpoint split_from (sep s : string) (skip : nat) (cur : string) : list string :=
  match s with
  | EmptyString => [cur]
  | String c s' =>
      match skip with
      | S k => split_from sep s' k cur
      | O =>
          if starts_with sep s
          then cur :: split_from sep s' (String.length sep - 1) ""
          else split_from sep s' 0 (cur +:+ String c "")
      end
  end.

(** [s.split(sep)] for a non-empty separator: the pieces between the
    non-overlapping occurrences of [sep], found left to right.  (Python
    raises ValueError on an empty separator; every separator in this module
    is non-empty.) *)
Definition split (sep s : string) : list string := split_from sep s 0 "".

(** [sep in s]: [sep] occurs in [s]. *)
Fixpoint contains (sep s : string) : bool :=
  starts_with sep s
  || match s with
     | EmptyString => false
     | String _ s' => contains sep s'
     end.

(** The [re] module as far as the class reads it.  [re._pattern_type], the
    type of compiled patterns, is an attribute of the module up to Python 3.6
    and is absent from Python 3.7 on, where reading it raises
    [AttributeError]. *)
Record re_module := { has_pattern_type : bool }.

End Py.

(** ** Data model *)

(** Service dictionary, with the keys the docstring of [_add_services]
  lists.  A key that is absent and a key bound to [None] are both [None]
  here: the module reads the optional keys only through [dict.get]. *)
Record service := Service {
name : string;
units : option Z;
constraints : option (list (string * string));
location : option string;
}.

(** [svc['location'] = v] *)
Definition set_location (svc : service) (v : string) : service :=
{| name := name svc; units := units svc;
   constraints := constraints svc; location := Some v |}.

(** The attributes [__init__] stores on [self]; no method assigns them
  afterwards. *)
Record deployment := Deployment {
series : option string;
openstack : option string;
source : option string;
stable : bool;
}.

(** The [message] argument of [_auto_wait_for_status]: a compiled pattern
  (with its IGNORECASE flag), a string, or a set of strings. *)
Inductive message :=
| Pattern (pattern : string) (ignorecase : bool)
| Literal (text : string)
| LiteralSet (texts : list string).

(** Truth value of the [message] argument.  A compiled pattern is an object
  without [__bool__] or [__len__], hence always true. *)
Definition message_truthy (m : option message) : bool :=
match m with
| None => false
| Some (Pattern _ _) => true
| Some (Literal s) => Py.truthy (Some s)
| Some (LiteralSet l) => Py.truthy_list (Some l)
end.

(** Exceptions.  [BadRef] is not a Python exception: it marks a reference
  that points to no object, which no Python state contains. *)
Inductive exn :=
| KeyError
| IndexError
| ValueError (msg : string)
| AttributeError (attr : string)
| DriverError (what : string)
| BadRef (a : nat).

Inductive res (A : Type) :=
| Ok (a : A)
| Raise (e : exn).
Arguments Ok {A} a.
Arguments Raise {A} e.

(** The heap shared with the caller: service dictionaries and lists of
  references to service dictionaries, by address. *)
Record heap := Heap {
dicts : gmap nat service;
lists : gmap nat (list nat);
}.

(** Calls made to the collaborators, with their arguments as they are at the
  time of the call. *)
Inductive call :=
| CallAddServices (this : service) (others : list service)
| CallConfigure (svc : string) (config : gmap string string)
| CallWaitForMessages (messages : gmap string message) (timeout : Z).

(** The collaborators.  [base_add_services] is
  [AmuletDeployment._add_services], which receives the two objects by
  reference and may update them; the other three are the operations of the
  amulet deployment [self.d] that the module uses. *)
Class Driver (D : Type) := {
base_add_services : nat -> nat -> heap -> D -> res unit * heap * D;
configure : string -> gmap string string -> D -> res unit * D;
services_keys : D -> list string;
wait_for_messages : gmap string message -> Z -> D -> res unit * D;
}.

(** ** State and exceptions *)

Section Monad.

Context {D : Type} `{Driver D}.

Record state := State {
  mem : heap;
  attrs : gmap string Z;
  drv : D;
  calls : list call;
}.

Definition M (A : Type) : Type := state -> res A * state.

Definition ret {A} (a : A) : M A := fun st => (Ok a, st).

Definition raise {A} (e : exn) : M A := fun st => (Raise e, st).

Definition bind {A B} (m : M A) (k : A -> M B) : M B :=
  fun st =>
    match m st with
    | (Ok a, st') => k a st'
    | (Raise e, st') => (Raise e, st')
    end.

End Monad.

Arguments state D : clear implicits.
Arguments M D A : clear implicits.

Declare Scope py_scope.
Delimit Scope py_scope with py.
Notation "x <- m ;; k" := (bind m (fun x => k))
(at level 100, m at next level, k at level 200, right associativity)
: py_scope.
Notation "m ;; k" := (bind m (fun _ => k))
(at level 100, k at level 200, right associativity) : py_scope.
Open Scope py_scope.

Section Operations.

Context {D : Type} `{Driver D}.

(** [for x in xs: body(x)] over a list that the body does not change. *)
Fixpoint for_each {A} (xs : list A) (body : A -> M D unit) : M D unit :=
  match xs with
  | [] => ret tt
  | x :: xs' => body x ;; for_each xs' body
  end.

Definition set_mem (h : heap) (st : state D) : state D :=
  {| mem := h; attrs := attrs st; drv := drv st; calls := calls st |}.

Definition set_drv (d : D) (st : state D) : state D :=
  {| mem := mem st; attrs := attrs st; drv := d; calls := calls st |}.

Definition log_call (c : call) (st : state D) : state D :=
  {| mem := mem st; attrs := attrs st; drv := drv st;
     calls := calls st ++ [c] |}.

(** Dereference a list. *)
Definition get_list (l : nat) : M D (list nat) :=
  fun st =>
    match lists (mem st) !! l with
    | Some rs => (Ok rs, st)
    | None => (Raise (BadRef l), st)
    end.

(** Dereference a service dictionary. *)
Definition get_dict (r : nat) : M D service :=
  fun st =>
    match dicts (mem st) !! r with
    | Some svc => (Ok svc, st)
    | None => (Raise (BadRef r), st)
    end.

(** Store into the dictionary at [r]. *)
Definition put_dict (r : nat) (svc : service) : M D unit :=
  fun st =>
    (Ok tt,
     set_mem {| dicts := <[r := svc]> (dicts (mem st));
                lists := lists (mem st) |} st).

(** [l.append(r)] *)
Definition list_append (l r : nat) : M D unit :=
  rs <- get_list l ;;
  fun st =>
    (Ok tt,
     set_mem {| dicts := dicts (mem st);
                lists := <[l := rs ++ [r]]> (lists (mem st)) |} st).

(** [self.<a> = v] *)
Definition setattr (a : string) (v : Z) : M D unit :=
  fun st =>
    (Ok tt,
     {| mem := mem st; attrs := <[a := v]> (attrs st);
        drv := drv st; calls := calls st |}).

(** [self.<a>] *)
Definition getattr (a : string) : M D Z :=
  fun st =>
    match attrs st !! a with
    | Some v => (Ok v, st)
    | None => (Raise (AttributeError a), st)
    end.

(** The values of the dictionaries that a list of references points to. *)
Fixpoint get_dicts (rs : list nat) : M D (list service) :=
  match rs with
  | [] => ret []
  | r :: rs' =>
      svc <- get_dict r ;;
      svcs <- get_dicts rs' ;;
      ret (svc :: svcs)
  end.

(** [super()._add_services(this_service, other_services)] *)
Definition super_add_services (this_service other_services : nat) : M D unit :=
  this <- get_dict this_service ;;
  rs <- get_list other_services ;;
  others <- get_dicts rs ;;
  fun st =>
    let st1 := log_call (CallAddServices this others) st in
    match base_add_services this_service other_services (mem st1) (drv st1) with
    | (r, h, d) => (r, set_drv d (set_mem h st1))
    end.

(** [self.d.configure(svc, config)] *)
Definition d_configure (svc : string) (config : gmap string string) : M D unit :=
  fun st =>
    let st1 := log_call (CallConfigure svc config) st in
    match configure svc config (drv st1) with
    | (r, d) => (r, set_drv d st1)
    end.

(** [self.d.services.keys()] *)
Definition d_services_keys : M D (list string) :=
  fun st => (Ok (services_keys (drv st)), st).

(** [self.d.sentry.wait_for_messages(messages, timeout=timeout)] *)
Definition d_wait_for_messages (messages : gmap string message) (timeout : Z)
  : M D unit :=
  fun st =>
    let st1 := log_call (CallWaitForMessages messages timeout) st in
    match wait_for_messages messages timeout (drv st1) with
    | (r, d) => (r, set_drv d st1)
    end.

End Operations.

(** ** The methods of OpenStackAmuletDeployment *)

Section Methods.

Context {D : Type} `{Driver D}.

(** [x in xs] for [x] that is [None] or a string and a list of strings. *)
Definition series_in (x : option string) (xs : list string) : bool :=
  match x with
  | Some s => bool_decide (s ∈ xs)
  | None => false
  end.

(** [xs[-1]] *)
Definition last_item (xs : list string) : M D string :=
  match last xs with
  | Some x => ret x
  | None => raise IndexError
  end.

(** [xs[1]] *)
Definition item1 (xs : list string) : M D string :=
  match xs !! 1%nat with
  | Some x => ret x
  | None => raise IndexError
  end.

(** [xs[0]] *)
Definition item0 (xs : list string) : M D string :=
  match xs !! 0%nat with
  | Some x => ret x
  | None => raise IndexError
  end.

(** Charms outside the ~openstack-charmers *)
Definition base_charms : gmap string (list string) :=
  list_to_map [
    ("mysql", ["precise"; "trusty"]);
    ("mongodb", ["precise"; "trusty"]);
    ("nrpe", ["precise"; "trusty"; "wily"; "xenial"])
  ].

(** ['cs:{}/{}'.format(series, name)] *)
Definition format_cs (series : option string) (name : string) : string :=
  "cs:" +:+ Py.str series +:+ "/" +:+ name.

(** ['cs:~openstack-charmers-next/{}/{}'.format(series, name)] *)
Definition format_next (series : option string) (name : string) : string :=
  "cs:~openstack-charmers-next/" +:+ Py.str series +:+ "/" +:+ name.

(** The body of the loop of [_determine_branch_locations], for the
    dictionary at reference [r]. *)
Definition determine_branch_location (self : deployment) (r : nat) : M D unit :=
  svc <- get_dict r ;;
  (* If a location has been explicitly set, use it *)
  if Py.truthy (location svc) then ret tt
  else
    match base_charms !! name svc with
    | Some supported =>
        target_series <-
          (if negb (series_in (series self) supported)
           then (t <- last_item supported ;; ret (Some t))
           else ret (series self)) ;;
        put_dict r (set_location svc (format_cs target_series (name svc)))
    | None =>
        if stable self
        then put_dict r (set_location svc (format_cs (series self) (name svc)))
        else put_dict r (set_location svc (format_next (series self) (name svc)))
    end.

Definition _determine_branch_locations (self : deployment) (other_services : nat)
  : M D nat :=
  svcs <- get_list other_services ;;
  for_each svcs (determine_branch_location self) ;;
  ret other_services.

Definition default_use_source : list string :=
  ["mysql"; "mongodb"; "rabbitmq-server"; "ceph";
   "ceph-osd"; "ceph-radosgw"; "ceph-mon"; "ceph-proxy"].

Definition default_no_origin : list string :=
  ["cinder-ceph"; "hacluster"; "neutron-openvswitch";
   "nrpe"; "openvswitch-odl"; "neutron-api-odl";
   "odl-controller"; "cinder-backup"; "nexentaedge-data";
   "nexentaedge-iscsi-gw"; "nexentaedge-swift-gw";
   "cinder-nexentaedge"; "nexentaedge-mgmt"].

(** [use_source] after [if not use_source: use_source = [...]] *)
Definition use_source_or_default (use_source : option (list string)) : list string :=
  match use_source with
  | Some l => if Py.truthy_list use_source then l else default_use_source
  | None => default_use_source
  end.

(** [no_origin] after [if not no_origin: no_origin = [...]] *)
Definition no_origin_or_default (no_origin : option (list string)) : list string :=
  match no_origin with
  | Some l => if Py.truthy_list no_origin then l else default_no_origin
  | None => default_no_origin
  end.

(** The body of the loop under [if self.openstack:]. *)
Definition configure_origin (origin : string) (use_source no_origin : list string)
    (r : nat) : M D unit :=
  svc <- get_dict r ;;
  if negb (bool_decide (name svc ∈ use_source ++ no_origin))
  then d_configure (name svc) {[ "openstack-origin" := origin ]}
  else ret tt.

(** The body of the loop under [if self.source:]. *)
Definition configure_source (src : string) (use_source no_origin : list string)
    (r : nat) : M D unit :=
  svc <- get_dict r ;;
  if bool_decide (name svc ∈ use_source) && negb (bool_decide (name svc ∈ no_origin))
  then d_configure (name svc) {[ "source" := src ]}
  else ret tt.

Definition _add_services (self : deployment) (this_service other_services : nat)
    (use_source no_origin : option (list string)) : M D unit :=
  other_services <- _determine_branch_locations self other_services ;;
  super_add_services this_service other_services ;;
  let services := other_services in
  list_append services this_service ;;
  (* Charms which should use the source config option *)
  let use_source := use_source_or_default use_source in
  (* Charms which can not use openstack-origin, ie. many subordinates *)
  let no_origin := no_origin_or_default no_origin in
  (if Py.truthy (openstack self)
   then svcs <- get_list services ;;
        for_each svcs (configure_origin (Py.str (openstack self)) use_source no_origin)
   else ret tt) ;;
  (if Py.truthy (source self)
   then svcs <- get_list services ;;
        for_each svcs (configure_source (Py.str (source self)) use_source no_origin)
   else ret tt).

(** [configs] is given by its items, in the order in which [six.iteritems]
    yields them. *)
Definition _configure_services (self : deployment)
    (configs : list (string * gmap string string)) : M D unit :=
  for_each configs (fun sc => d_configure sc.1 sc.2).

End Methods.

Section Release.

Context {D : Type} `{Driver D}.

Definition _auto_wait_for_status (self : deployment) (re : Py.re_module)
    (message : option message)
    (exclude_services include_only : option (list string)) (timeout : Z)
  : M D unit :=
  all_services <- d_services_keys ;;
  (if Py.truthy_list exclude_services && Py.truthy_list include_only
   then raise (ValueError "exclude_services can not be used with include_only")
   else ret tt) ;;
  (if message_truthy message
   then (* [isinstance(message, re._pattern_type)]: its result only selects
           what is logged, but [re._pattern_type] is evaluated *)
     if Py.has_pattern_type re then ret tt
     else raise (AttributeError "_pattern_type")
   else ret tt) ;;
  let message :=
    match message with
    | Some m => if message_truthy message then m else Pattern ".*ready.*" true
    | None => Pattern ".*ready.*" true
    end in
  let exclude_services :=
    match exclude_services with
    | Some l => if Py.truthy_list exclude_services then l else []
    | None => []
    end in
  let services :=
    match include_only with
    | Some l =>
        if Py.truthy_list include_only then l
        else elements ((list_to_set all_services : gset string)
                       ∖ list_to_set exclude_services)
    | None => elements ((list_to_set all_services : gset string)
                        ∖ list_to_set exclude_services)
    end in
  let service_messages : gmap string _ :=
    list_to_map ((fun service => (service, message)) <$> services) in
  d_wait_for_messages service_messages timeout.

(** The attribute names on the left of [= range(16)], in order. *)
Definition release_attrs : list string :=
  ["precise_essex"; "precise_folsom"; "precise_grizzly";
   "precise_havana"; "precise_icehouse";
   "trusty_icehouse"; "trusty_juno"; "utopic_juno";
   "trusty_kilo"; "vivid_kilo"; "trusty_liberty";
   "wily_liberty"; "trusty_mitaka";
   "xenial_mitaka"; "xenial_newton";
   "yakkety_newton"].

(** The [releases] literal of [_get_openstack_release]: each key with the
    name of the attribute of [self] that its value is read from. *)
Definition releases_literal : list ((option string * option string) * string) :=
  [ ((Some "precise", None), "precise_essex");
    ((Some "precise", Some "cloud:precise-folsom"), "precise_folsom");
    ((Some "precise", Some "cloud:precise-grizzly"), "precise_grizzly");
    ((Some "precise", Some "cloud:precise-havana"), "precise_havana");
    ((Some "precise", Some "cloud:precise-icehouse"), "precise_icehouse");
    ((Some "trusty", None), "trusty_icehouse");
    ((Some "trusty", Some "cloud:trusty-juno"), "trusty_juno");
    ((Some "trusty", Some "cloud:trusty-kilo"), "trusty_kilo");
    ((Some "trusty", Some "cloud:trusty-liberty"), "trusty_liberty");
    ((Some "trusty", Some "cloud:trusty-mitaka"), "trusty_mitaka");
    ((Some "utopic", None), "utopic_juno");
    ((Some "vivid", None), "vivid_kilo");
    ((Some "wily", None), "wily_liberty");
    ((Some "xenial", None), "xenial_mitaka");
    ((Some "xenial", Some "cloud:xenial-newton"), "xenial_newton");
    ((Some "yakkety", None), "yakkety_newton") ].

(** Evaluate a dictionary literal whose values are attributes of [self],
    entry by entry. *)
Fixpoint dict_of_attrs {K} `{Countable K} (entries : list (K * string))
  : M D (gmap K Z) :=
  match entries with
  | [] => ret ∅
  | (k, a) :: rest =>
      v <- getattr a ;;
      m <- dict_of_attrs rest ;;
      (* a later entry with the same key wins *)
      ret (match m !! k with Some _ => m | None => <[k := v]> m end)
  end.

Definition _get_openstack_release (self : deployment) : M D Z :=
  (* Must be ordered by OpenStack release (not by Ubuntu release): *)
  for_each (zip release_attrs (seqZ 0 16)) (fun av => setattr av.1 av.2) ;;
  releases <- dict_of_attrs releases_literal ;;
  match releases !! (series self, openstack self) with
  | Some v => ret v
  | None => raise KeyError
  end.

(** The [releases] OrderedDict of [_get_openstack_release_string]. *)
Definition release_strings : list (string * string) :=
  [ ("precise", "essex");
    ("quantal", "folsom");
    ("raring", "grizzly");
    ("saucy", "havana");
    ("trusty", "icehouse");
    ("utopic", "juno");
    ("vivid", "kilo");
    ("wily", "liberty");
    ("xenial", "mitaka");
    ("yakkety", "newton") ].

(** [releases[k]] in an OrderedDict built from a list of pairs with
    distinct keys. *)
Definition ordered_lookup (k : option string) (d : list (string * string))
  : option string :=
  match k with
  | Some s => snd <$> List.find (fun kv => String.eqb kv.1 s) d
  | None => None
  end.

Definition _get_openstack_release_string (self : deployment) : M D string :=
  if Py.truthy (openstack self)
  then
    os_origin <- item1 (Py.split ":" (Py.str (openstack self))) ;;
    after <- item1 (Py.split (Py.str (series self) +:+ "-") os_origin) ;;
    item0 (Py.split "/" after)
  else
    match ordered_lookup (series self) release_strings with
    | Some v => ret v
    | None => raise KeyError
    end.

Definition get_ceph_expected_pools (self : deployment) (radosgw : bool)
  : M D (list string) :=
  release <- _get_openstack_release self ;;
  trusty_kilo <- getattr "trusty_kilo" ;;
  let pools :=
    if release >=? trusty_kilo
    then (* Kilo or later *)
      ["rbd"; "cinder"; "glance"]
    else (* Juno or earlier *)
      ["data"; "metadata"; "rbd"; "cinder"; "glance"] in
  let pools :=
    if radosgw
    then pools ++ [".rgw.root"; ".rgw.control"; ".rgw"; ".rgw.gc"; ".users.uid"]
    else pools in
  ret pools.

End Release.

(** * Vocabulary of the properties *)

Section Model.

Context {D : Type} `{Driver D}.

(** The location that the spec prescribes for a service without one. *)
Definition spec_location (self : deployment) (nm : string) : string :=
  match base_charms !! nm with
  | Some supported =>
      if series_in (series self) supported
      then "cs:" +:+ Py.str (series self) +:+ "/" +:+ nm
      else "cs:" +:+ default "" (last supported) +:+ "/" +:+ nm
  | None =>
      if stable self
      then "cs:" +:+ Py.str (series self) +:+ "/" +:+ nm
      else "cs:~openstack-charmers-next/" +:+ Py.str (series self) +:+ "/" +:+ nm
  end.

Definition resolved (self : deployment) (svc : service) : service :=
  if Py.truthy (location svc) then svc
  else set_location svc (spec_location self (name svc)).

(** [with_dict r svc st]: the state [st] with [svc] stored at [r]. *)
Definition with_dict (r : nat) (svc : service) (st : state D) : state D :=
  set_mem {| dicts := <[r := svc]> (dicts (mem st)); lists := lists (mem st) |} st.

(** Every reference of [rs] points to a service dictionary. *)
Definition all_bound (rs : list nat) (st : state D) : Prop :=
  Forall (fun r => is_Some (dicts (mem st) !! r)) rs.

(** The dictionaries at the references [rs] have the values [svcs]. *)
Definition points_to (h : heap) (rs : list nat) (svcs : list service) : Prop :=
  Forall2 (fun r svc => dicts h !! r = Some svc) rs svcs.

(** The values of the dictionaries that [rs] refers to. *)
Definition deref (h : heap) (rs : list nat) : list service :=
  omap (fun r => dicts h !! r) rs.

(** The shape shared by the two configuration loops: configure the service
    when a test on its name succeeds. *)
Definition configure_if (test : string → bool) (config : gmap string string)
    (r : nat) : M D unit :=
  svc <- get_dict r ;;
  if test (name svc) then d_configure (name svc) config else ret tt.

(** The calls such a loop makes over services with the values [svcs]. *)
Definition configure_calls (test : string → bool) (config : gmap string string)
    (svcs : list service) : list call :=
  (fun svc => CallConfigure (name svc) config)
    <$> filter (fun svc => test (name svc) = true) svcs.

(** [svc['name'] not in use_source + no_origin] *)
Definition origin_test (use_source no_origin : list string) (nm : string) : bool :=
  negb (bool_decide (nm ∈ use_source ++ no_origin)).

(** [svc['name'] in use_source and svc['name'] not in no_origin] *)
Definition source_test (use_source no_origin : list string) (nm : string) : bool :=
  bool_decide (nm ∈ use_source) && negb (bool_decide (nm ∈ no_origin)).

(** The calls of the configuration phase of [_add_services] over the
    services [svcs]. *)
Definition origin_calls (self : deployment) (use_source no_origin : list string)
    (svcs : list service) : list call :=
  if Py.truthy (openstack self)
  then configure_calls (origin_test use_source no_origin)
         {[ "openstack-origin" := Py.str (openstack self) ]} svcs
  else [].

Definition source_calls (self : deployment) (use_source no_origin : list string)
    (svcs : list service) : list call :=
  if Py.truthy (source self)
  then configure_calls (source_test use_source no_origin)
         {[ "source" := Py.str (source self) ]} svcs
  else [].

(** A call of the trace [cs] configures the service [nm] with the value
    [v] for the option [key]. *)
Definition receives (cs : list call) (nm key v : string) : Prop :=
  ∃ config, CallConfigure nm config ∈ cs ∧ config !! key = Some v.

(** The values that [range(16)] gives the release attributes. *)
Definition release_ordinals : gmap string Z :=
  list_to_map (zip release_attrs (seqZ 0 16)).

(** The dictionary that a literal denotes when the attributes of [self]
    have the values [ords]. *)
Definition table_of {K} `{Countable K} (ords : gmap string Z)
    (entries : list (K * string)) : gmap K Z :=
  foldr (fun ka m =>
           match ords !! ka.2 with
           | Some v => match m !! ka.1 with Some _ => m | None => <[ka.1 := v]> m end
           | None => m
           end) ∅ entries.

(** The ReleaseTable: the [releases] dictionary of
    [_get_openstack_release]. *)
Definition release_table : gmap (option string * option string) Z :=
  table_of release_ordinals releases_literal.

(** The attributes of [self] after the assignment from [range(16)]. *)
Definition assigned_attrs (m : gmap string Z) : gmap string Z :=
  foldl (fun m av => <[av.1 := av.2]> m) m (zip release_attrs (seqZ 0 16)).

Definition set_attrs (m : gmap string Z) (st : state D) : state D :=
  {| mem := mem st; attrs := m; drv := drv st; calls := calls st |}.

(** Position of a codename in the chronological order of the OpenStack
    releases, which is the order of [release_strings]. *)
Fixpoint index_of (c : string) (cs : list string) : option nat :=
  match cs with
  | [] => None
  | c' :: cs' => if String.eqb c' c then Some 0%nat else S <$> index_of c cs'
  end.

Definition chronology (c : string) : option nat :=
  index_of c (release_strings.*2).

(** A computation only adds calls to the trace. *)
Definition extends_calls {A} (m : M D A) : Prop :=
  ∀ st, ∃ new, calls (m st).2 = calls st ++ new.

(** A state without objects, for the methods that use none. *)
Definition blank : state unit :=
  {| mem := {| dicts := ∅; lists := ∅ |}; attrs := ∅; drv := tt; calls := [] |}.

(** The result of [_get_openstack_release_string], which depends on [self]
    alone. *)
Definition codename (self : deployment) : res string :=
  (_get_openstack_release_string self blank).1.

(** What the table says about two of its entries: the ordinals are among
    the sixteen values, differ for different keys, and grow with the
    release of the entry. *)
Definition entry_ok (k1 : option string * option string) (v1 : Z)
    (k2 : option string * option string) (v2 : Z) : Prop :=
  0 ≤ v1 < 16
  ∧ (k1 ≠ k2 → v1 ≠ v2)
  ∧ match codename (Deployment k1.1 k1.2 None true),
          codename (Deployment k2.1 k2.2 None true) with
    | Ok c1, Ok c2 =>
        match chronology c1, chronology c2 with
        | Some i1, Some i2 => (i1 < i2)%nat → v1 < v2
        | _, _ => False
        end
    | _, _ => False
    end.

(** The message and the services of the single [wait_for_messages] call of
    [_auto_wait_for_status]. *)
Definition waited_message (msg : option message) : message :=
  match msg with
  | Some m => if message_truthy msg then m else Pattern ".*ready.*" true
  | None => Pattern ".*ready.*" true
  end.

Definition waited_services (exclude_services include_only : option (list string))
    (all_services : list string) : list string :=
  if Py.truthy_list include_only then default [] include_only
  else elements ((list_to_set all_services : gset string)
                 ∖ list_to_set (if Py.truthy_list exclude_services
                                then default [] exclude_services else [])).

(** The threshold of [get_ceph_expected_pools] separates the entries of the
    table by release: ordinals from [trusty_kilo] on belong to Kilo and
    later releases. *)
Definition kilo_split (k : option string * option string) (v : Z) : Prop :=
  match codename (Deployment k.1 k.2 None true) with
  | Ok c =>
      match chronology c, chronology "kilo" with
      | Some i, Some j => 8 ≤ v ↔ (j ≤ i)%nat
      | _, _ => False
      end
  | Raise _ => False
  end.

#[global] Instance kilo_split_dec k v : Decision (kilo_split k v).
Proof.
  unfold kilo_split.
  destruct (codename (Deployment k.1 k.2 None true)) as [c|];
    try destruct (chronology c); try destruct (chronology "kilo"); apply _.
Defined.

#[global] Instance entry_ok_dec k1 v1 k2 v2 : Decision (entry_ok k1 v1 k2 v2).
Proof.
  unfold entry_ok.
  destruct (codename (Deployment k1.1 k1.2 None true)) as [c1|];
    destruct (codename (Deployment k2.1 k2.2 None true)) as [c2|];
    try destruct (chronology c1); try destruct (chronology c2); apply _.
Defined.

End Model.

(** * A driver and a state on which the methods are run *)

Module Fixture.

(** [AmuletDeployment._add_services] as far as the fixture needs it: the
    services become known to the deployment by name. *)
Definition add (this l : nat) (h : heap) (d : list string)
  : res unit * heap * list string :=
  match dicts h !! this, lists h !! l with
  | Some t, Some rs =>
      (Ok tt, h, d ++ name t :: (name <$> omap (fun r => dicts h !! r) rs))
  | _, _ => (Raise (BadRef this), h, d)
  end.

(** A deployment that knows its services by name and refuses to configure
    a service that was not added. *)
#[global] Instance driver : Driver (list string) := {|
  base_add_services := add;
  configure := fun nm _ d =>
    if bool_decide (nm ∈ d) then (Ok tt, d)
    else (Raise (ValueError "Service has not yet been described"), d);
  services_keys := fun d => d;
  wait_for_messages := fun _ _ d => (Ok tt, d);
|}.

Definition xenial_newton : deployment :=
  {| series := Some "xenial"; openstack := Some "cloud:xenial-newton";
     source := Some "ppa:testing"; stable := true |}.

Definition precise_newton : deployment :=
  {| series := Some "precise"; openstack := Some "cloud:precise-newton";
     source := None; stable := true |}.

Definition trusty_kilo_proposed : deployment :=
  {| series := Some "trusty"; openstack := Some "cloud:trusty-kilo/proposed";
     source := None; stable := true |}.

Definition trusty_next : deployment :=
  {| series := Some "trusty"; openstack := None;
     source := None; stable := false |}.

Definition mysql : service :=
  {| name := "mysql"; units := None; constraints := None; location := None |}.

Definition keystone : service :=
  {| name := "keystone"; units := Some 2; constraints := None; location := None |}.

Definition nova : service :=
  {| name := "nova-compute"; units := None; constraints := Some [("mem", "4G")];
     location := Some "cs:~bob/xenial/nova-compute" |}.

Definition cinder : service :=
  {| name := "cinder"; units := None; constraints := None; location := None |}.

(** The list at address 0 holds the other services (addresses 1 to 3); the
    service under test is at address 9. *)
Definition st0 : state (list string) :=
  {| mem := {| dicts := list_to_map [(1%nat, mysql); (2%nat, keystone);
                                     (3%nat, nova); (9%nat, cinder)];
               lists := {[ 0%nat := [1; 2; 3]%nat ]} |};
     attrs := ∅;
     drv := [];
     calls := [] |}.

(** A deployment whose base class fails, as it does when the charm is not
    tested from its own directory. *)
#[global] Instance refusing : Driver unit := {|
  base_add_services := fun _ _ h d =>
    (Raise (DriverError "The charm's root directory name needs to be cinder"), h, d);
  configure := fun _ _ d => (Ok tt, d);
  services_keys := fun _ => [];
  wait_for_messages := fun _ _ d => (Ok tt, d);
|}.

(** [st0] for that deployment. *)
Definition st0_refusing : state unit :=
  {| mem := mem st0; attrs := ∅; drv := tt; calls := [] |}.

(** The state after [_add_services] for the service under test at address 9
    and the list at address 0, with the default override lists. *)
Definition st1 : state (list string) :=
  (_add_services xenial_newton 9 0 None None st0).2.

(** [re] in Python 3.6 and in Python 3.7. *)
Definition re36 : Py.re_module := {| Py.has_pattern_type := true |}.
Definition re37 : Py.re_module := {| Py.has_pattern_type := false |}.

(** [st0] with the service under test also among the other services: the
    list at address 0 holds the reference 9 as well. *)
Definition st0_aliased : state (list string) :=
  {| mem := {| dicts := dicts (mem st0);
               lists := {[ 0%nat := [1; 2; 3; 9]%nat ]} |};
     attrs := ∅;
     drv := [];
     calls := [] |}.

(** Options for two of the services. *)
Definition configs : list (string * gmap string string) :=
  [("keystone", {[ "admin-password" := "openstack" ]});
   ("mysql", {[ "dataset-size" := "50%" ]})].

End Fixture.

(** * Properties *)

(** ** Branch-location resolution *)

Section Resolver.

Context {D : Type} `{Driver D}.

(** Every supported-series list of [base_charms] has a last element. *)
Lemma base_charms_last (nm : string) (supported : list string) :
  base_charms !! nm = Some supported → ∃ t, last supported = Some t.
Proof.
  intros Hl. apply elem_of_list_to_map_2 in Hl.
  repeat (apply elem_of_cons in Hl as [Hl | Hl]; [inversion Hl; subst; eauto|]).
  by apply elem_of_nil in Hl.
Qed.

Lemma spec_location_truthy self nm : Py.truthy (Some (spec_location self nm)) = true.
Proof.
  unfold spec_location. destruct (base_charms !! nm); repeat case_match; done.
Qed.

Lemma resolved_idem self svc : resolved self (resolved self svc) = resolved self svc.
Proof.
  unfold resolved at 2 3. destruct (Py.truthy (location svc)) eqn:E.
  - unfold resolved. by rewrite E.
  - unfold resolved. cbn [location set_location]. by rewrite spec_location_truthy.
Qed.

Lemma with_dict_same r svc (st : state D) :
  dicts (mem st) !! r = Some svc → with_dict r svc st = st.
Proof.
  intros Hr. destruct st as [[ds ls] a d c]. unfold with_dict, set_mem. cbn in *.
  by rewrite insert_id.
Qed.

Lemma determine_branch_location_run self r (st : state D) svc :
  dicts (mem st) !! r = Some svc →
  determine_branch_location self r st = (Ok tt, with_dict r (resolved self svc) st).
Proof.
  intros Hr. unfold determine_branch_location, bind, get_dict, resolved. rewrite Hr.
  destruct (Py.truthy (location svc)) eqn:E.
  - by rewrite with_dict_same.
  - unfold spec_location. destruct (base_charms !! name svc) as [supported|] eqn:Eb.
    + destruct (series_in (series self) supported) eqn:Es; cbn.
      * done.
      * destruct (base_charms_last _ _ Eb) as [t Ht]. unfold last_item. rewrite Ht. done.
    + destruct (stable self); done.
Qed.
(** The loop of [_determine_branch_locations]: it ends normally and leaves
    at every listed reference the resolved dictionary, also when a
    dictionary is listed more than once. *)
Lemma resolve_loop self (rs : list nat) : ∀ st : state D,
  all_bound rs st →
  ∃ st', for_each rs (determine_branch_location self) st = (Ok tt, st')
    ∧ lists (mem st') = lists (mem st)
    ∧ attrs st' = attrs st ∧ drv st' = drv st ∧ calls st' = calls st
    ∧ ∀ r, dicts (mem st') !! r =
             if decide (r ∈ rs) then resolved self <$> dicts (mem st) !! r
             else dicts (mem st) !! r.
Proof.
  induction rs as [|a rs IH]; intros st Hb.
  - exists st. by repeat split.
  - apply Forall_cons in Hb as [[svc Ha] Hb].
    destruct (IH (with_dict a (resolved self svc) st)) as (st' & Hrun & Hl & Hat & Hd & Hc & Hds).
    { eapply Forall_impl; [exact Hb|]. cbn. intros r [x Hx].
      destruct (decide (a = r)) as [->|Hne].
      - rewrite lookup_insert_eq. eauto.
      - rewrite lookup_insert_ne; eauto. }
    exists st'. cbn [for_each]. unfold bind at 1.
    rewrite (determine_branch_location_run self a st svc Ha), Hrun.
    repeat split; try done. intros r. rewrite Hds. cbn.
    destruct (decide (a = r)) as [->|Hne].
    + rewrite lookup_insert_eq, Ha. cbn. rewrite resolved_idem.
      rewrite (decide_True (P := r ∈ r :: rs)) by (apply elem_of_cons; by left).
      by case_decide.
    + rewrite lookup_insert_ne by done.
      destruct (decide (r ∈ rs)) as [Hin|Hnin].
      * rewrite decide_True; [done | apply elem_of_cons; by right].
      * rewrite decide_False; [done|]. intros Hin. apply elem_of_cons in Hin as [->|Hin]; done.
Qed.

(** [_determine_branch_locations] on a list whose references are bound. *)
Lemma determine_branch_locations_run self (l : nat) (rs : list nat) (st : state D) :
  lists (mem st) !! l = Some rs →
  all_bound rs st →
  ∃ st', _determine_branch_locations self l st = (Ok l, st')
    ∧ lists (mem st') = lists (mem st)
    ∧ attrs st' = attrs st ∧ drv st' = drv st ∧ calls st' = calls st
    ∧ ∀ r, dicts (mem st') !! r =
             if decide (r ∈ rs) then resolved self <$> dicts (mem st) !! r
             else dicts (mem st) !! r.
Proof.
  intros Hl Hb. destruct (resolve_loop self rs st Hb) as (st' & Hrun & Hrest).
  exists st'. split; [|exact Hrest].
  unfold _determine_branch_locations, bind, get_list. by rewrite Hl, Hrun.
Qed.

End Resolver.

Section ResolverClaims.

Context {D : Type} `{Driver D}.

(** C1.  Branch-location resolution ends normally on a list of service
    dictionaries, and a listed service whose location is not set (absent,
    [None] or empty) gets a location: for a name of [base_charms],
    [cs:<series>/<name>] with the requested series when the charm supports it
    and with the last series of the charm's list otherwise; for another
    name, [cs:<series>/<name>] when [stable] holds and
    [cs:~openstack-charmers-next/<series>/<name>] when it does not.  The
    other fields of the dictionary stay as they are. *)
Theorem branch_location_assigned self (l : nat) (rs : list nat) (st : state D)
    (r : nat) (svc : service) :
  lists (mem st) !! l = Some rs →
  all_bound rs st →
  r ∈ rs →
  dicts (mem st) !! r = Some svc →
  Py.truthy (location svc) = false →
  ∃ st' loc,
    _determine_branch_locations self l st = (Ok l, st')
    ∧ dicts (mem st') !! r = Some (set_location svc loc)
    ∧ (∀ supported s,
         base_charms !! name svc = Some supported →
         series self = Some s → s ∈ supported →
         loc = "cs:" +:+ s +:+ "/" +:+ name svc)
    ∧ (∀ supported,
         base_charms !! name svc = Some supported →
         (∀ s, series self = Some s → s ∉ supported) →
         ∃ t, last supported = Some t ∧ loc = "cs:" +:+ t +:+ "/" +:+ name svc)
    ∧ (base_charms !! name svc = None → stable self = true →
       loc = "cs:" +:+ Py.str (series self) +:+ "/" +:+ name svc)
    ∧ (base_charms !! name svc = None → stable self = false →
       loc = "cs:~openstack-charmers-next/" +:+ Py.str (series self)
               +:+ "/" +:+ name svc).
Proof.
  intros Hl Hb Hin Hr Hloc.
  destruct (determine_branch_locations_run self l rs st Hl Hb)
    as (st' & Hrun & _ & _ & _ & _ & Hds).
  exists st', (spec_location self (name svc)). split; [done|]. split.
  { rewrite Hds, decide_True, Hr by done. cbn. unfold resolved. by rewrite Hloc. }
  unfold spec_location. repeat split.
  - intros supported s Hsup Hs Hmem. rewrite Hsup. unfold series_in. rewrite Hs.
    by rewrite bool_decide_eq_true_2.
  - intros supported Hsup Hnot. rewrite Hsup.
    destruct (base_charms_last _ _ Hsup) as [t Ht]. exists t. split; [done|].
    assert (series_in (series self) supported = false) as ->.
    { unfold series_in. destruct (series self) as [s|]; [|done].
      apply bool_decide_eq_false_2. by apply Hnot. }
    by rewrite Ht.
  - intros Hnone Hst. by rewrite Hnone, Hst.
  - intros Hnone Hst. by rewrite Hnone, Hst.
Qed.

(** C7.  A listed service whose location is already set to a non-empty
    string keeps that location through branch-location resolution, and all
    its other fields with it. *)
Theorem preset_location_kept self (l : nat) (rs : list nat) (st : state D)
    (r : nat) (svc : service) (loc : string) :
  lists (mem st) !! l = Some rs →
  all_bound rs st →
  r ∈ rs →
  dicts (mem st) !! r = Some svc →
  location svc = Some loc →
  loc ≠ "" →
  ∃ st',
    _determine_branch_locations self l st = (Ok l, st')
    ∧ dicts (mem st') !! r = Some svc.
Proof.
  intros Hl Hb Hin Hr Hloc Hne.
  destruct (determine_branch_locations_run self l rs st Hl Hb)
    as (st' & Hrun & _ & _ & _ & _ & Hds).
  exists st'. split; [done|].
  rewrite Hds, decide_True, Hr by done. cbn. unfold resolved. rewrite Hloc.
  by destruct loc.
Qed.

End ResolverClaims.

Lemma branch_location_assigned_witness :
  ∃ st' loc,
    _determine_branch_locations Fixture.xenial_newton 0 Fixture.st0 = (Ok 0%nat, st')
    ∧ dicts (mem st') !! 1%nat = Some (set_location Fixture.mysql loc)
    ∧ (∀ supported s,
         base_charms !! "mysql" = Some supported →
         Some "xenial" = Some s → s ∈ supported →
         loc = "cs:" +:+ s +:+ "/" +:+ "mysql")
    ∧ (∀ supported,
         base_charms !! "mysql" = Some supported →
         (∀ s, Some "xenial" = Some s → s ∉ supported) →
         ∃ t, last supported = Some t ∧ loc = "cs:" +:+ t +:+ "/" +:+ "mysql")
    ∧ (base_charms !! "mysql" = None → true = true →
       loc = "cs:" +:+ "xenial" +:+ "/" +:+ "mysql")
    ∧ (base_charms !! "mysql" = None → true = false →
       loc = "cs:~openstack-charmers-next/" +:+ "xenial" +:+ "/" +:+ "mysql").
Proof.
  apply (branch_location_assigned Fixture.xenial_newton 0 [1; 2; 3]%nat
           Fixture.st0 1 Fixture.mysql).
  - reflexivity.
  - apply (bool_decide_unpack _). vm_compute. exact I.
  - apply (bool_decide_unpack _). vm_compute. exact I.
  - reflexivity.
  - reflexivity.
Defined.

Lemma preset_location_kept_witness :
  ∃ st',
    _determine_branch_locations Fixture.xenial_newton 0 Fixture.st0 = (Ok 0%nat, st')
    ∧ dicts (mem st') !! 3%nat = Some Fixture.nova.
Proof.
  apply (preset_location_kept Fixture.xenial_newton 0 [1; 2; 3]%nat
           Fixture.st0 3 Fixture.nova "cs:~bob/xenial/nova-compute").
  - reflexivity.
  - apply (bool_decide_unpack _). vm_compute. exact I.
  - apply (bool_decide_unpack _). vm_compute. exact I.
  - reflexivity.
  - reflexivity.
  - discriminate.
Defined.

(** ** Runs of [_add_services] *)

Section AddServices.

Context {D : Type} `{Driver D}.

Lemma bind_ok {A B} (m : M D A) (k : A → M D B) (st st' : state D) (b : B) :
  bind m k st = (Ok b, st') →
  ∃ a st1, m st = (Ok a, st1) ∧ k a st1 = (Ok b, st').
Proof.
  unfold bind. destruct (m st) as [[a|e] st1]; [eauto | done].
Qed.

Lemma get_dicts_ok (rs : list nat) : ∀ (st st' : state D) svcs,
  get_dicts rs st = (Ok svcs, st') → st' = st ∧ points_to (mem st) rs svcs.
Proof.
  induction rs as [|r rs IH]; intros st st' svcs Hrun; cbn in Hrun.
  - inversion Hrun; subst. split; [done | constructor].
  - apply bind_ok in Hrun as (svc & st1 & Hget & Hrun).
    unfold get_dict in Hget.
    destruct (dicts (mem st) !! r) as [svc'|] eqn:Hr; [|done].
    inversion Hget; subst; clear Hget.
    apply bind_ok in Hrun as (others & st2 & Hrest & Hret).
    apply IH in Hrest as [-> Hp]. inversion Hret; subst.
    split; [done|]. by constructor.
Qed.

Lemma configure_loop_ok test config (rs : list nat) : ∀ st st' : state D,
  for_each rs (configure_if test config) st = (Ok tt, st') →
  ∃ svcs, points_to (mem st) rs svcs
    ∧ mem st' = mem st ∧ attrs st' = attrs st
    ∧ calls st' = calls st ++ configure_calls test config svcs.
Proof.
  induction rs as [|r rs IH]; intros st st' Hrun; cbn [for_each] in Hrun.
  - inversion Hrun; subst. exists []. unfold configure_calls.
    rewrite app_nil_r. repeat split; constructor.
  - apply bind_ok in Hrun as ([] & st1 & Hbody & Hrun).
    apply bind_ok in Hbody as (svc & st0 & Hget & Hbody).
    unfold get_dict in Hget.
    destruct (dicts (mem st) !! r) as [svc'|] eqn:Hr; [|done].
    inversion Hget; subst; clear Hget.
    apply IH in Hrun as (svcs & Hp & Hm & Ha & Hc).
    exists (svc :: svcs). unfold configure_calls. rewrite filter_cons.
    destruct (test (name svc)) eqn:Ht.
    + unfold d_configure in Hbody.
      destruct (configure (name svc) config (drv (log_call (CallConfigure (name svc) config) st0)))
        as [[[]|e] d] eqn:Hcfg; [|done].
      inversion Hbody; subst; clear Hbody. cbn in *.
      rewrite decide_True by done. rewrite Hm, Ha, Hc.
      repeat split; [by constructor|]. by rewrite <- app_assoc.
    + inversion Hbody; subst; clear Hbody.
      rewrite decide_False by done. repeat split; try done. by constructor.
Qed.

Lemma determine_branch_locations_ok self (l l' : nat) (st st' : state D) :
  _determine_branch_locations self l st = (Ok l', st') →
  l' = l ∧ ∃ rs, lists (mem st) !! l = Some rs ∧ all_bound rs st.
Proof.
  intros Hrun. apply bind_ok in Hrun as (rs & st0 & Hget & Hrun).
  unfold get_list in Hget. destruct (lists (mem st) !! l) as [rs'|] eqn:Hl; [|done].
  inversion Hget; subst; clear Hget.
  apply bind_ok in Hrun as ([] & st1 & Hloop & Hret). inversion Hret; subst.
  split; [done|]. exists rs. split; [done|].
  clear Hl Hret. revert st0 Hloop.
  induction rs as [|r rs IH]; intros st Hloop; [constructor|].
  cbn [for_each] in Hloop. apply bind_ok in Hloop as ([] & st1 & Hbody & Hloop).
  destruct (dicts (mem st) !! r) as [svc|] eqn:Hr.
  - rewrite (determine_branch_location_run self r st svc Hr) in Hbody.
    inversion Hbody; subst; clear Hbody.
    apply IH in Hloop. constructor; [by rewrite Hr|].
    eapply Forall_impl; [exact Hloop|]. cbn. intros x [y Hy].
    destruct (decide (r = x)) as [->|Hne]; [by rewrite Hr|].
    rewrite lookup_insert_ne in Hy by done. eauto.
  - unfold determine_branch_location, bind, get_dict in Hbody. by rewrite Hr in Hbody.
Qed.

Lemma points_to_deref h rs svcs : points_to h rs svcs → deref h rs = svcs.
Proof.
  induction 1 as [|r svc rs svcs Hr _ IH]; [done|].
  unfold deref in *. cbn. by rewrite Hr, IH.
Qed.

Lemma elem_of_deref h (rs : list nat) r svc :
  r ∈ rs → dicts h !! r = Some svc → svc ∈ deref h rs.
Proof. intros Hin Hr. apply list_elem_of_omap. eauto. Qed.

Lemma configure_phase_ok (l : nat) (rs : list nat) test config (b : bool)
    (st st' : state D) :
  lists (mem st) !! l = Some rs →
  (if b then svcs <- get_list l ;; for_each svcs (configure_if test config)
   else ret tt) st = (Ok tt, st') →
  mem st' = mem st ∧ attrs st' = attrs st
  ∧ calls st' = calls st
      ++ (if b then configure_calls test config (deref (mem st) rs) else []).
Proof.
  intros Hl Hrun. destruct b.
  - apply bind_ok in Hrun as (rs' & st0 & Hget & Hrun).
    unfold get_list in Hget. rewrite Hl in Hget. inversion Hget; subst; clear Hget.
    apply configure_loop_ok in Hrun as (svcs & Hp & Hm & Ha & Hc).
    by rewrite (points_to_deref _ _ _ Hp).
  - inversion Hrun; subst. by rewrite app_nil_r.
Qed.

(** A run of [_add_services] that ends normally. *)
Lemma add_services_ok self (this l : nat) us no (st st' : state D) :
  _add_services self this l us no st = (Ok tt, st') →
  ∃ st_r tv rs others h d rs_b,
    _determine_branch_locations self l st = (Ok l, st_r)
    ∧ dicts (mem st_r) !! this = Some tv
    ∧ lists (mem st_r) !! l = Some rs
    ∧ points_to (mem st_r) rs others
    ∧ base_add_services this l (mem st_r) (drv st_r) = (Ok tt, h, d)
    ∧ lists h !! l = Some rs_b
    ∧ mem st' = {| dicts := dicts h; lists := <[l := rs_b ++ [this]]> (lists h) |}
    ∧ calls st' =
        calls st ++ CallAddServices tv others
          :: origin_calls self (use_source_or_default us) (no_origin_or_default no)
               (deref (mem st') (rs_b ++ [this]))
          ++ source_calls self (use_source_or_default us) (no_origin_or_default no)
               (deref (mem st') (rs_b ++ [this])).
Proof.
  intros Hrun. unfold _add_services in Hrun.
  apply bind_ok in Hrun as (l' & st_r & Hres & Hrun).
  destruct (determine_branch_locations_ok _ _ _ _ _ Hres) as (-> & rs & Hl & Hb).
  destruct (determine_branch_locations_run self l rs st Hl Hb)
    as (st_r' & Hres' & Hlr & _ & _ & Hcr & _).
  rewrite Hres in Hres'. inversion Hres'; subst st_r'; clear Hres'.
  apply bind_ok in Hrun as ([] & st_b & Hsuper & Hrun).
  unfold super_add_services in Hsuper.
  apply bind_ok in Hsuper as (tv & st1 & Hthis & Hsuper).
  unfold get_dict in Hthis.
  destruct (dicts (mem st_r) !! this) as [tv'|] eqn:Ht; [|done].
  inversion Hthis; subst; clear Hthis.
  apply bind_ok in Hsuper as (rs' & st2 & Hget & Hsuper).
  unfold get_list in Hget. rewrite Hlr, Hl in Hget. inversion Hget; subst; clear Hget.
  apply bind_ok in Hsuper as (others & st3 & Hothers & Hsuper).
  apply get_dicts_ok in Hothers as [-> Hp].
  cbn in Hsuper.
  destruct (base_add_services this l (mem st2) (drv st2)) as [[[[]|e] h] d] eqn:Hbase;
    [|done].
  inversion Hsuper; subst st_b; clear Hsuper.
  apply bind_ok in Hrun as ([] & st_a & Happ & Hrun).
  unfold list_append in Happ.
  apply bind_ok in Happ as (rs_b & st4 & Hget & Happ).
  unfold get_list in Hget. cbn in Hget.
  destruct (lists h !! l) as [rs_b'|] eqn:Hlb; [|done].
  inversion Hget; subst; clear Hget.
  inversion Happ; subst st_a; clear Happ. cbn in Hrun.
  apply bind_ok in Hrun as ([] & st_o & Horigin & Hsource).
  change (configure_origin ?o ?u ?n)
    with (configure_if (origin_test u n) {[ "openstack-origin" := o ]}) in Horigin.
  change (configure_source ?o ?u ?n)
    with (configure_if (source_test u n) {[ "source" := o ]}) in Hsource.
  eapply (configure_phase_ok l (rs_b ++ [this])) in Horigin as (Hmo & Hao & Hco);
    [|cbn; apply lookup_insert_eq].
  eapply (configure_phase_ok l (rs_b ++ [this])) in Hsource as (Hms & Has & Hcs);
    [|rewrite Hmo; cbn; apply lookup_insert_eq].
  exists st2, tv, rs', others, h, d, rs_b.
  rewrite Hlr. repeat split; try done.
  - by rewrite Hms, Hmo.
  - rewrite Hcs, Hco, Hms, Hmo. cbn. rewrite Hcr.
    unfold origin_calls, source_calls. by rewrite <- !app_assoc.
Qed.

Lemma resolved_truthy self svc : Py.truthy (location (resolved self svc)) = true.
Proof.
  unfold resolved. destruct (Py.truthy (location svc)) eqn:E; [done|].
  apply spec_location_truthy.
Qed.

Lemma truthy_nonempty (x : option string) :
  Py.truthy x = true ↔ ∃ s, x = Some s ∧ s ≠ "".
Proof.
  split.
  - destruct x as [[|a s]|]; [done| |done]. intros _. by exists (String a s).
  - intros (s & -> & Hs). by destruct s.
Qed.

Lemma get_dicts_total (rs : list nat) (svcs : list service) (st : state D) :
  points_to (mem st) rs svcs → get_dicts rs st = (Ok svcs, st).
Proof.
  induction 1 as [|r svc rs svcs Hr _ IH]; [done|].
  cbn [get_dicts]. unfold bind, get_dict. by rewrite Hr, IH.
Qed.

Lemma extends_ret {A} (a : A) : extends_calls (D := D) (ret a).
Proof. intros st. exists []. by rewrite app_nil_r. Qed.

Lemma extends_bind {A B} (m : M D A) (k : A → M D B) :
  extends_calls (D := D) m → (∀ a, extends_calls (D := D) (k a)) → extends_calls (D := D) (bind m k).
Proof.
  intros Hm Hk st. unfold bind. destruct (Hm st) as [new1 H1].
  destruct (m st) as [[a|e] st1]; cbn in *.
  - destruct (Hk a st1) as [new2 H2]. exists (new1 ++ new2).
    by rewrite H2, H1, app_assoc.
  - by exists new1.
Qed.

Lemma extends_get_dict r : extends_calls (D := D) (get_dict r).
Proof.
  intros st. exists []. unfold get_dict.
  destruct (dicts (mem st) !! r); by rewrite app_nil_r.
Qed.

Lemma extends_get_list l : extends_calls (D := D) (get_list l).
Proof.
  intros st. exists []. unfold get_list.
  destruct (lists (mem st) !! l); by rewrite app_nil_r.
Qed.

Lemma extends_d_configure nm config : extends_calls (D := D) (d_configure nm config).
Proof.
  intros st. exists [CallConfigure nm config]. unfold d_configure.
  by destruct (configure _ _ _).
Qed.

Lemma extends_for_each {A} (xs : list A) (body : A → M D unit) :
  (∀ x, extends_calls (D := D) (body x)) → extends_calls (D := D) (for_each xs body).
Proof.
  intros Hbody. induction xs as [|x xs IH]; cbn [for_each].
  - apply extends_ret.
  - apply extends_bind; [apply Hbody | intros _; apply IH].
Qed.

Lemma extends_configure_if test config r : extends_calls (D := D) (configure_if test config r).
Proof.
  apply extends_bind; [apply extends_get_dict|]. intros svc.
  destruct (test (name svc)); [apply extends_d_configure | apply extends_ret].
Qed.

Lemma extends_list_append l r : extends_calls (D := D) (list_append l r).
Proof.
  apply extends_bind; [apply extends_get_list|]. intros rs st.
  exists []. by rewrite app_nil_r.
Qed.

Lemma extends_configure_phase (b : bool) l test config :
  extends_calls (D := D) (if b then svcs <- get_list l ;; for_each svcs (configure_if test config)
                 else ret tt).
Proof.
  destruct b; [|apply extends_ret].
  apply extends_bind; [apply extends_get_list|]. intros svcs.
  apply extends_for_each. intros r. apply extends_configure_if.
Qed.

Lemma elem_of_configure_calls test config (svcs : list service) nm cfg :
  CallConfigure nm cfg ∈ configure_calls test config svcs
  ↔ cfg = config ∧ test nm = true ∧ ∃ svc, svc ∈ svcs ∧ name svc = nm.
Proof.
  unfold configure_calls. rewrite list_elem_of_fmap. split.
  - intros (svc & Heq & Hin). apply list_elem_of_filter in Hin as [Ht Hin].
    inversion Heq; subst. eauto.
  - intros (-> & Ht & svc & Hin & <-). exists svc. split; [done|].
    by apply list_elem_of_filter.
Qed.

Lemma origin_test_true (use_source no_origin : list string) nm :
  origin_test use_source no_origin nm = true ↔ (nm ∉ use_source) ∧ (nm ∉ no_origin).
Proof.
  unfold origin_test. rewrite negb_true_iff, bool_decide_eq_false, elem_of_app.
  tauto.
Qed.

Lemma source_test_true (use_source no_origin : list string) nm :
  source_test use_source no_origin nm = true ↔ (nm ∈ use_source) ∧ (nm ∉ no_origin).
Proof.
  unfold source_test.
  by rewrite andb_true_iff, negb_true_iff, bool_decide_eq_true, bool_decide_eq_false.
Qed.


Lemma receives_after_add_services tv others (cs : list call) nm key v :
  receives (CallAddServices tv others :: cs) nm key v ↔ receives cs nm key v.
Proof.
  unfold receives. split; intros (cfg & Hin & Hv); exists cfg; (split; [|done]).
  - by apply elem_of_cons in Hin as [Hin|Hin].
  - apply elem_of_cons. by right.
Qed.

(** The calls of the configuration phase that give a service the option
    [openstack-origin]. *)
Lemma receives_origin self use_source no_origin (svcs : list service) nm v :
  receives (origin_calls self use_source no_origin svcs
              ++ source_calls self use_source no_origin svcs) nm "openstack-origin" v
  ↔ (Py.truthy (openstack self) = true ∧ openstack self = Some v
     ∧ (nm ∉ use_source) ∧ (nm ∉ no_origin) ∧ ∃ svc, svc ∈ svcs ∧ name svc = nm).
Proof.
  unfold receives, origin_calls, source_calls. split.
  - intros (cfg & Hin & Hv).
    apply elem_of_app in Hin as [Hin|Hin].
    + destruct (Py.truthy (openstack self)) eqn:Ht; [|by apply elem_of_nil in Hin].
      apply elem_of_configure_calls in Hin as (-> & Htest & Hsvc).
      apply origin_test_true in Htest as [Hu Hn].
      rewrite lookup_singleton_eq in Hv. inversion Hv; subst.
      repeat split; try done.
      apply truthy_nonempty in Ht as (s & -> & _). done.
    + destruct (Py.truthy (source self)); [|by apply elem_of_nil in Hin].
      apply elem_of_configure_calls in Hin as (-> & _ & _).
      by rewrite lookup_singleton_ne in Hv.
  - intros (Ht & Ho & Hu & Hn & Hsvc). rewrite Ht, Ho. cbn [Py.str].
    exists {[ "openstack-origin" := v ]}. split; [|apply lookup_singleton_eq].
    apply elem_of_app. left.
    apply elem_of_configure_calls. repeat split; try done.
    by apply origin_test_true.
Qed.

(** The calls of the configuration phase that give a service the option
    [source]. *)
Lemma receives_source self use_source no_origin (svcs : list service) nm v :
  receives (origin_calls self use_source no_origin svcs
              ++ source_calls self use_source no_origin svcs) nm "source" v
  ↔ (Py.truthy (source self) = true ∧ source self = Some v
     ∧ (nm ∈ use_source) ∧ (nm ∉ no_origin) ∧ ∃ svc, svc ∈ svcs ∧ name svc = nm).
Proof.
  unfold receives, origin_calls, source_calls. split.
  - intros (cfg & Hin & Hv).
    apply elem_of_app in Hin as [Hin|Hin].
    + destruct (Py.truthy (openstack self)); [|by apply elem_of_nil in Hin].
      apply elem_of_configure_calls in Hin as (-> & _ & _).
      by rewrite lookup_singleton_ne in Hv.
    + destruct (Py.truthy (source self)) eqn:Ht; [|by apply elem_of_nil in Hin].
      apply elem_of_configure_calls in Hin as (-> & Htest & Hsvc).
      apply source_test_true in Htest as [Hu Hn].
      rewrite lookup_singleton_eq in Hv. inversion Hv; subst.
      repeat split; try done.
      apply truthy_nonempty in Ht as (s & -> & _). done.
  - intros (Ht & Ho & Hu & Hn & Hsvc). rewrite Ht, Ho. cbn [Py.str].
    exists {[ "source" := v ]}. split; [|apply lookup_singleton_eq].
    apply elem_of_app. right.
    apply elem_of_configure_calls. repeat split; try done.
    by apply source_test_true.
Qed.

Lemma super_add_services_run (this l : nat) (st : state D) tv rs others :
  dicts (mem st) !! this = Some tv →
  lists (mem st) !! l = Some rs →
  points_to (mem st) rs others →
  super_add_services this l st
  = match base_add_services this l (mem st) (drv st) with
    | (r, h, d) =>
        (r, set_drv d (set_mem h (log_call (CallAddServices tv others) st)))
    end.
Proof.
  intros Ht Hl Hp. unfold super_add_services, bind, get_dict, get_list.
  by rewrite Ht, Hl, (get_dicts_total _ _ _ Hp).
Qed.

(** The dictionaries listed in [rs], once resolved, all have a location. *)
Lemma resolved_points_to self (rs : list nat) (st st' : state D) :
  all_bound rs st →
  (∀ r, dicts (mem st') !! r =
          if decide (r ∈ rs) then resolved self <$> dicts (mem st) !! r
          else dicts (mem st) !! r) →
  ∃ others, points_to (mem st') rs others
    ∧ Forall (fun svc => Py.truthy (location svc) = true) others.
Proof.
  intros Hb Hds.
  assert (∀ rs0, Forall (fun r => r ∈ rs) rs0 →
            ∃ others, points_to (mem st') rs0 others
              ∧ Forall (fun svc => Py.truthy (location svc) = true) others) as Hgen.
  { induction 1 as [|r rs0 Hin _ (others & Hp & Ht)].
    { exists []. split; constructor. }
    destruct (proj1 (Forall_forall _ _) Hb r Hin) as [svc Hr].
    exists (resolved self svc :: others). split.
    - constructor; [|done]. by rewrite Hds, decide_True, Hr.
    - constructor; [apply resolved_truthy | done]. }
  apply Hgen. by apply Forall_forall.
Qed.

End AddServices.

(** ** The release tables *)

Section ReleaseTables.

Context {D : Type} `{Driver D}.

Lemma assign_run (avs : list (string * Z)) : ∀ st : state D,
  for_each avs (fun av => setattr av.1 av.2) st
  = (Ok tt, set_attrs (foldl (fun m av => <[av.1 := av.2]> m) (attrs st) avs) st).
Proof.
  induction avs as [|av avs IH]; intros st.
  - by destruct st.
  - cbn [for_each foldl]. unfold bind, setattr at 1. by rewrite IH.
Qed.

Lemma dict_of_attrs_run {K} `{Countable K} (ords : gmap string Z)
    (entries : list (K * string)) (st : state D) :
  Forall (fun ka => is_Some (ords !! ka.2) ∧ attrs st !! ka.2 = ords !! ka.2) entries →
  dict_of_attrs entries st = (Ok (table_of ords entries), st).
Proof.
  induction 1 as [|[k a] entries [[v Hv] Ha] _ IH]; [done|].
  cbn in *. unfold bind, getattr. rewrite Ha, Hv, IH. done.
Qed.

Lemma foldl_insert_union (avs : list (string * Z)) : ∀ m : gmap string Z,
  NoDup avs.*1 →
  foldl (fun m av => <[av.1 := av.2]> m) m avs = list_to_map avs ∪ m.
Proof.
  induction avs as [|[a v] avs IH]; intros m Hnd.
  - cbn. by rewrite (left_id_L ∅ (∪)).
  - rewrite fmap_cons in Hnd. apply NoDup_cons in Hnd as [Hna Hnd].
    cbn [foldl list_to_map foldr fst snd uncurry]. rewrite IH by done.
    rewrite <- insert_union_l. symmetry. apply insert_union_r.
    by apply not_elem_of_list_to_map_1.
Qed.

Lemma assigned_attrs_union (m : gmap string Z) :
  assigned_attrs m = release_ordinals ∪ m.
Proof.
  apply foldl_insert_union. apply (bool_decide_unpack _). vm_compute. exact I.
Qed.

Lemma assigned_attrs_lookup (m : gmap string Z) :
  Forall (fun ka : (option string * option string) * string =>
            is_Some (release_ordinals !! ka.2)
            ∧ assigned_attrs m !! ka.2 = release_ordinals !! ka.2) releases_literal.
Proof.
  rewrite assigned_attrs_union. apply Forall_forall. intros [k a] Hin.
  assert (Forall (fun ka : (option string * option string) * string =>
                    is_Some (release_ordinals !! ka.2)) releases_literal) as Hall.
  { apply (bool_decide_unpack _). vm_compute. exact I. }
  destruct (proj1 (Forall_forall _ _) Hall _ Hin) as [v Hv].
  cbn [fst snd] in *. split; [eexists; exact Hv|].
  rewrite Hv. apply lookup_union_Some_l. exact Hv.
Qed.

Lemma dict_of_attrs_assigned (st : state D) :
  dict_of_attrs releases_literal (set_attrs (assigned_attrs (attrs st)) st)
  = (Ok release_table, set_attrs (assigned_attrs (attrs st)) st).
Proof.
  apply (dict_of_attrs_run release_ordinals).
  cbn [attrs set_attrs].
  apply assigned_attrs_lookup.
Qed.

Lemma get_openstack_release_run self (st : state D) :
  _get_openstack_release self st
  = (match release_table !! (series self, openstack self) with
     | Some v => Ok v
     | None => Raise KeyError
     end, set_attrs (assigned_attrs (attrs st)) st).
Proof.
  unfold _get_openstack_release. unfold bind at 1. rewrite assign_run.
  cbv beta iota. unfold bind at 1. fold (assigned_attrs (attrs st)).
  rewrite dict_of_attrs_assigned.
  cbv beta iota.
  destruct (release_table !! (series self, openstack self)); reflexivity.
Qed.
End ReleaseTables.

Section AddServicesClaims.

Context {D : Type} `{Driver D}.

(** C2.  In a run of [_add_services] that ends normally, the services that
    the configuration loops go through are those of the caller's list with
    the service under test appended.  Such a service is configured with
    [openstack-origin] exactly when the origin string is set (not [None],
    not empty) and its name is in neither [use_source] nor [no_origin]; it is
    configured with [source] exactly when the source string is set and its
    name is in [use_source] and not in [no_origin].  No service gets both,
    and a name in both lists gets no [source]. *)
Theorem origin_or_source self (this l : nat) us no (st st' : state D) :
  _add_services self this l us no st = (Ok tt, st') →
  ∃ rs_b new,
    lists (mem st') !! l = Some (rs_b ++ [this])
    ∧ calls st' = calls st ++ new
    ∧ ∀ r svc,
        r ∈ rs_b ++ [this] →
        dicts (mem st') !! r = Some svc →
        let use_source := use_source_or_default us in
        let no_origin := no_origin_or_default no in
        (∀ v, receives new (name svc) "openstack-origin" v
              ↔ Py.truthy (openstack self) = true ∧ openstack self = Some v
                ∧ (name svc ∉ use_source) ∧ (name svc ∉ no_origin))
        ∧ (∀ v, receives new (name svc) "source" v
                ↔ Py.truthy (source self) = true ∧ source self = Some v
                  ∧ (name svc ∈ use_source) ∧ (name svc ∉ no_origin))
        ∧ (∀ v w, ¬ (receives new (name svc) "openstack-origin" v
                     ∧ receives new (name svc) "source" w))
        ∧ (name svc ∈ use_source → name svc ∈ no_origin →
           ∀ v, ¬ receives new (name svc) "source" v).
Proof.
  intros Hrun.
  destruct (add_services_ok _ _ _ _ _ _ _ Hrun)
    as (st_r & tv & rs & others & h & d & rs_b & _ & _ & _ & _ & _ & _ & Hmem & Hcalls).
  exists rs_b, (CallAddServices tv others
    :: origin_calls self (use_source_or_default us) (no_origin_or_default no)
         (deref (mem st') (rs_b ++ [this]))
    ++ source_calls self (use_source_or_default us) (no_origin_or_default no)
         (deref (mem st') (rs_b ++ [this]))).
  split; [rewrite Hmem; cbn; apply lookup_insert_eq|]. split; [done|].
  intros r svc Hin Hr use_source no_origin.
  assert (∃ svc', svc' ∈ deref (mem st') (rs_b ++ [this]) ∧ name svc' = name svc) as Hsvc.
  { exists svc. split; [|done]. by eapply elem_of_deref. }
  match goal with
  | |- (∀ v, receives ?cs _ _ _ ↔ _) ∧ _ =>
      assert (∀ v, receives cs (name svc) "openstack-origin" v
                ↔ Py.truthy (openstack self) = true ∧ openstack self = Some v
                  ∧ (name svc ∉ use_source) ∧ (name svc ∉ no_origin)) as Horigin;
      [|assert (∀ v, receives cs (name svc) "source" v
                  ↔ Py.truthy (source self) = true ∧ source self = Some v
                    ∧ (name svc ∈ use_source) ∧ (name svc ∉ no_origin)) as Hsource]
  end.
  { intros v. rewrite receives_after_add_services, receives_origin. tauto. }
  { intros v. rewrite receives_after_add_services, receives_source. tauto. }
  split; [exact Horigin|]. split; [exact Hsource|]. split.
  - intros v w [Ho Hs]. apply Horigin in Ho. apply Hsource in Hs. tauto.
  - intros Hu Hn v Hs. apply Hsource in Hs. tauto.
Qed.

(** C8.  On a list of service dictionaries, [_add_services] first resolves
    the branch locations and then calls the base class: the first call it
    makes is [_add_services] of the base class, and the other services that
    this call receives all have a non-empty location.  The resolution
    changes nothing but the listed dictionaries: lists, attributes of
    [self], driver and trace are as before, and release lookups give the same
    result after it as before it. *)
Theorem locations_set_before_driver self (this l : nat) us no (st : state D)
    (rs : list nat) :
  lists (mem st) !! l = Some rs →
  all_bound rs st →
  is_Some (dicts (mem st) !! this) →
  ∃ st_r tv others rest,
    _determine_branch_locations self l st = (Ok l, st_r)
    ∧ points_to (mem st_r) rs others
    ∧ Forall (fun svc => ∃ loc, location svc = Some loc ∧ loc ≠ "") others
    ∧ calls (_add_services self this l us no st).2
      = calls st ++ CallAddServices tv others :: rest
    ∧ lists (mem st_r) = lists (mem st)
    ∧ attrs st_r = attrs st ∧ drv st_r = drv st ∧ calls st_r = calls st
    ∧ ∀ self', (_get_openstack_release self' st_r).1
               = (_get_openstack_release self' st).1.
Proof.
  intros Hl Hb [tsvc Ht].
  destruct (determine_branch_locations_run self l rs st Hl Hb)
    as (st_r & Hres & Hlr & Har & Hdr & Hcr & Hds).
  destruct (resolved_points_to self rs st st_r Hb Hds) as (others & Hp & Htr).
  assert (∃ tv, dicts (mem st_r) !! this = Some tv) as [tv Htv].
  { rewrite Hds, Ht. case_decide; eauto. }
  assert (∃ rest, calls (_add_services self this l us no st).2
                  = calls st ++ CallAddServices tv others :: rest) as [rest Hrest].
  { unfold _add_services. unfold bind at 1. rewrite Hres. cbv beta iota.
    unfold bind at 1.
    rewrite (super_add_services_run this l st_r tv rs others Htv) by (by rewrite ?Hlr).
    destruct (base_add_services this l (mem st_r) (drv st_r)) as [[[[]|e] h] d].
    - match goal with
      | |- ∃ rest, calls (?k ?s).2 = _ =>
          assert (extends_calls (D := D) k) as Hext
      end.
      { apply extends_bind; [apply extends_list_append|]. intros _.
        change (configure_origin ?o ?u ?n)
          with (configure_if (D := D) (origin_test u n) {[ "openstack-origin" := o ]}).
        change (configure_source ?o ?u ?n)
          with (configure_if (D := D) (source_test u n) {[ "source" := o ]}).
        apply extends_bind; [|intros _]; apply extends_configure_phase. }
      destruct (Hext (set_drv d (set_mem h (log_call (CallAddServices tv others) st_r))))
        as [new Hnew].
      exists new. rewrite Hnew. cbn. by rewrite Hcr, <- app_assoc.
    - exists []. cbn. by rewrite Hcr. }
  exists st_r, tv, others, rest. repeat split; try done.
  - eapply Forall_impl; [exact Htr|]. intros svc Hsvc. by apply truthy_nonempty.
  - intros self'.
    rewrite (get_openstack_release_run self' st_r), (get_openstack_release_run self' st).
    cbn [fst]. reflexivity.
Qed.

(** C9.  An empty list given for [use_source] or for [no_origin] is replaced
    by the built-in default, as a missing argument is: the run is the same. *)
Theorem empty_override_is_default self (this l : nat) us no (st : state D) :
  _add_services self this l (Some []) no st = _add_services self this l None no st
  ∧ _add_services self this l us (Some []) st = _add_services self this l us None st
  ∧ use_source_or_default (Some []) = default_use_source
  ∧ no_origin_or_default (Some []) = default_no_origin.
Proof. repeat split. Qed.

(** C10, as the code has it.  [_add_services] appends the service under
    test to the caller's list object itself: after a normal run the list at
    the caller's address is the list as the base class left it, with the
    reference to the service under test at the end, and the configuration
    loops treat the service under test like the other services.  The
    branch-location resolution runs before the append: it leaves the service
    under test as the caller gave it, and the base class receives it so,
    unless the caller has put the same dictionary among the other services,
    in which case it is resolved with them. *)
Theorem target_appended_in_place self (this l : nat) us no (st st' : state D)
    (rs : list nat) (tsvc : service) :
  lists (mem st) !! l = Some rs →
  dicts (mem st) !! this = Some tsvc →
  _add_services self this l us no st = (Ok tt, st') →
  ∃ st_r tv others h d rs_b new,
    _determine_branch_locations self l st = (Ok l, st_r)
    ∧ dicts (mem st_r) !! this = Some tv
    ∧ (this ∉ rs → tv = tsvc)
    ∧ (this ∈ rs → ∃ loc, location tv = Some loc ∧ loc ≠ "")
    ∧ base_add_services this l (mem st_r) (drv st_r) = (Ok tt, h, d)
    ∧ lists h !! l = Some rs_b
    ∧ mem st' = {| dicts := dicts h; lists := <[l := rs_b ++ [this]]> (lists h) |}
    ∧ calls st' = calls st ++ CallAddServices tv others :: new
    ∧ ∀ tv', dicts h !! this = Some tv' →
        (∀ v, receives new (name tv') "openstack-origin" v
              ↔ Py.truthy (openstack self) = true ∧ openstack self = Some v
                ∧ (name tv' ∉ use_source_or_default us)
                ∧ (name tv' ∉ no_origin_or_default no))
        ∧ (∀ v, receives new (name tv') "source" v
                ↔ Py.truthy (source self) = true ∧ source self = Some v
                  ∧ (name tv' ∈ use_source_or_default us)
                  ∧ (name tv' ∉ no_origin_or_default no)).
Proof.
  intros Hl Ht Hrun.
  destruct (add_services_ok _ _ _ _ _ _ _ Hrun)
    as (st_r & tv & rs0 & others & h & d & rs_b & Hres & Htv & Hl0 & Hp & Hbase
        & Hlb & Hmem & Hcalls).
  destruct (determine_branch_locations_ok _ _ _ _ _ Hres) as (_ & rs1 & Hl1 & Hb).
  rewrite Hl in Hl1. inversion Hl1; subst rs1; clear Hl1.
  destruct (determine_branch_locations_run self l rs st Hl Hb)
    as (st_r' & Hres' & _ & _ & _ & _ & Hds).
  rewrite Hres in Hres'. inversion Hres'; subst st_r'; clear Hres'.
  exists st_r, tv, others, h, d, rs_b.
  eexists. split; [done|]. split; [done|]. split; [|split].
  - intros Hnin. rewrite Hds, decide_False, Ht in Htv by done. by inversion Htv.
  - intros Hin. rewrite Hds, decide_True, Ht in Htv by done. cbn in Htv.
    inversion Htv; subst tv. apply truthy_nonempty. apply resolved_truthy.
  - do 3 (split; [done|]). split; [exact Hcalls|].
    intros tv' Htv'.
    assert (∃ svc', svc' ∈ deref (mem st') (rs_b ++ [this]) ∧ name svc' = name tv')
      as Hsvc.
    { exists tv'. split; [|done]. apply (elem_of_deref _ _ this).
      - apply elem_of_app. right. apply elem_of_cons. by left.
      - by rewrite Hmem. }
    split; intros v.
    + rewrite receives_origin. tauto.
    + rewrite receives_source. tauto.
Qed.

End AddServicesClaims.

(** ** Release ordinals, codenames and pools *)

Section ReleaseClaims.

Context {D : Type} `{Driver D}.

Lemma str_app_nil_r (s : string) : s +:+ "" = s.
Proof.
  induction s as [|a s IH]; [done|].
  change (String a (s +:+ "") = String a s). by rewrite IH.
Qed.

Lemma str_app_assoc (s1 s2 s3 : string) : (s1 +:+ s2) +:+ s3 = s1 +:+ (s2 +:+ s3).
Proof.
  induction s1 as [|a s1 IH]; [done|].
  change (String a ((s1 +:+ s2) +:+ s3) = String a (s1 +:+ (s2 +:+ s3))).
  by rewrite IH.
Qed.

(** Without an occurrence of the separator there is one piece. *)
Lemma split_from_none (sep s : string) : ∀ cur,
  Py.contains sep s = false → Py.split_from sep s 0 cur = [cur +:+ s].
Proof.
  induction s as [|c s IH]; intros cur Hc.
  - cbn [Py.split_from]. by rewrite str_app_nil_r.
  - cbn [Py.contains] in Hc. apply orb_false_iff in Hc as [Hs Hc].
    cbn [Py.split_from]. rewrite Hs, IH by done.
    by rewrite str_app_assoc.
Qed.

Lemma split_from_skip (sep p s cur : string) :
  Py.split_from sep (p +:+ s) (String.length p) cur = Py.split_from sep s 0 cur.
Proof.
  induction p as [|a p IH]; [done|].
  change (String a p +:+ s) with (String a (p +:+ s)). exact IH.
Qed.

Lemma starts_with_app (sep s : string) : Py.starts_with sep (sep +:+ s) = true.
Proof.
  induction sep as [|a sep IH]; [done|].
  change (String a sep +:+ s) with (String a (sep +:+ s)).
  cbn [Py.starts_with]. by rewrite Ascii.eqb_refl.
Qed.

(** A separator at the head ends the current piece. *)
Lemma split_from_head (sep s cur : string) :
  sep ≠ "" →
  Py.split_from sep (sep +:+ s) 0 cur = cur :: Py.split_from sep s 0 "".
Proof.
  destruct sep as [|a sep]; [done|]. intros _.
  change (String a sep +:+ s) with (String a (sep +:+ s)).
  cbn [Py.split_from].
  change (String a (sep +:+ s)) with (String a sep +:+ s).
  rewrite starts_with_app. cbn [String.length]. rewrite Nat.sub_1_r. cbn [Nat.pred].
  by rewrite split_from_skip.
Qed.

(** [_get_openstack_release_string] neither reads nor changes the state. *)
Lemma get_openstack_release_string_run self (st : state D) :
  _get_openstack_release_string self st = (codename self, st).
Proof.
  unfold codename, _get_openstack_release_string.
  destruct (Py.truthy (openstack self)).
  - unfold bind, item1, item0.
    destruct (Py.split ":" (Py.str (openstack self)) !! 1%nat) as [os_origin|]; [|done].
    cbn.
    destruct (Py.split (Py.str (series self) +:+ "-") os_origin !! 1%nat)
      as [after|]; [|done].
    cbn. by destruct (Py.split "/" after !! 0%nat).
  - by destruct (ordered_lookup (series self) release_strings).
Qed.

Lemma release_table_lookup self (st : state D) v :
  (_get_openstack_release self st).1 = Ok v →
  release_table !! (series self, openstack self) = Some v.
Proof.
  rewrite get_openstack_release_run. cbn [fst].
  destruct (release_table !! (series self, openstack self)); [|done].
  intros Hv. by inversion Hv.
Qed.

Lemma release_table_ok :
  map_Forall (fun k1 v1 => map_Forall (fun k2 v2 => entry_ok k1 v1 k2 v2) release_table)
    release_table.
Proof. apply (bool_decide_unpack _). vm_compute. exact I. Qed.

Lemma codename_eta self :
  codename (Deployment (series self) (openstack self) None true) = codename self.
Proof.
  unfold codename, _get_openstack_release_string. cbn [series openstack].
  reflexivity.
Qed.

Lemma assigned_trusty_kilo (m : gmap string Z) :
  assigned_attrs m !! "trusty_kilo" = Some 8.
Proof.
  rewrite assigned_attrs_union. apply lookup_union_Some_l.
  vm_compute. reflexivity.
Qed.

Lemma ordered_lookup_None (s : string) (d : list (string * string)) :
  ordered_lookup (Some s) d = None ↔ s ∉ d.*1.
Proof.
  unfold ordered_lookup. induction d as [|[k v] d IH]; cbn.
  - split; [intros _; apply not_elem_of_nil | done].
  - rewrite not_elem_of_cons. destruct (String.eqb_spec k s) as [->|Hne]; cbn.
    + split; [done | intros [Hs _]; done].
    + rewrite IH. split; [intros Hs; split; [congruence | done] | tauto].
Qed.

Lemma ordered_lookup_Some (s c : string) (d : list (string * string)) :
  NoDup d.*1 → (s, c) ∈ d → ordered_lookup (Some s) d = Some c.
Proof.
  unfold ordered_lookup. induction d as [|[k v] d IH]; intros Hnd Hin.
  - by apply elem_of_nil in Hin.
  - rewrite fmap_cons in Hnd. apply NoDup_cons in Hnd as [Hk Hnd].
    apply elem_of_cons in Hin as [Heq|Hin]; cbn.
    + inversion Heq; subst. by rewrite String.eqb_refl.
    + destruct (String.eqb_spec k s) as [->|Hne]; [|by apply IH].
      exfalso. apply Hk. apply list_elem_of_fmap. by exists (s, c).
Qed.

(** C3, as the code has it.  For a (series, origin) pair without an entry in
    the ReleaseTable the ordinal resolver raises [KeyError].  The codename
    resolver does not look a pair up in that table, whether the pair has an
    entry or not.  Without an origin string it returns the codename that its
    own table gives for the series and fails, with [KeyError], exactly when
    the series is not one of the ten keys of that table; from an origin
    [cloud:<series>-<codename>] it returns the codename. *)
Theorem unmapped_release self (st : state D) :
  (release_table !! (series self, openstack self) = None →
   ∃ st', _get_openstack_release self st = (Raise KeyError, st'))
  ∧ (Py.truthy (openstack self) = false →
     ((_get_openstack_release_string self st).1 = Raise KeyError
      ↔ ∀ s, series self = Some s →
             s ∉ ["precise"; "quantal"; "raring"; "saucy"; "trusty";
                  "utopic"; "vivid"; "wily"; "xenial"; "yakkety"])
     ∧ (∀ e, (_get_openstack_release_string self st).1 = Raise e → e = KeyError)
     ∧ (∀ s c, series self = Some s → (s, c) ∈ release_strings →
               _get_openstack_release_string self st = (Ok c, st)))
  ∧ (∀ s c,
       series self = Some s →
       openstack self = Some ("cloud:" +:+ s +:+ "-" +:+ c) →
       Py.contains ":" (s +:+ "-" +:+ c) = false →
       Py.contains (s +:+ "-") c = false →
       Py.contains "/" c = false →
       _get_openstack_release_string self st = (Ok c, st)).
Proof.
  split; [|split].
  - intros Hnone. rewrite get_openstack_release_run, Hnone. eauto.
  - intros Hf. unfold _get_openstack_release_string. rewrite Hf.
    change ["precise"; "quantal"; "raring"; "saucy"; "trusty";
            "utopic"; "vivid"; "wily"; "xenial"; "yakkety"]
      with (release_strings.*1).
    split; [|split].
    + destruct (series self) as [s|].
      * destruct (ordered_lookup (Some s) release_strings) as [c|] eqn:E; cbn [fst].
        -- split; [done|]. intros Hs. specialize (Hs s eq_refl).
           apply ordered_lookup_None in Hs. congruence.
        -- split; [|done]. intros _ s' [= <-]. by apply ordered_lookup_None.
      * cbn. split; [by intros _ s Hs | done].
    + intros e. destruct (ordered_lookup (series self) release_strings); cbn [fst].
      * intros He. inversion He.
      * by intros [= <-].
    + intros s c Hs Hin. rewrite Hs.
      rewrite (ordered_lookup_Some s c release_strings); [done| |done].
      apply (bool_decide_unpack _). vm_compute. exact I.
  - intros s c Hs Ho Hcolon Hmark Hslash.
    unfold _get_openstack_release_string. rewrite Ho, Hs. cbn [Py.truthy Py.str].
    change (Py.split ":" ("cloud:" +:+ s +:+ "-" +:+ c))
      with ("cloud" :: Py.split_from ":" (s +:+ "-" +:+ c) 0 "").
    rewrite (split_from_none ":" _ "" Hcolon).
    unfold bind at 1. cbn [item1 lookup list_lookup ret]. cbv beta iota.
    change ("" +:+ s +:+ "-" +:+ c) with (s +:+ "-" +:+ c).
    rewrite <- (str_app_assoc s "-" c). unfold Py.split.
    rewrite split_from_head by (by destruct s).
    rewrite (split_from_none _ _ "" Hmark).
    unfold bind at 1. cbn [item1 lookup list_lookup ret]. cbv beta iota.
    change ("" +:+ c) with c.
    rewrite (split_from_none "/" _ "" Hslash). reflexivity.
Qed.

(** C4.  The ordinal resolver returns one of the sixteen values 0 to 15, each
    of them for exactly one entry of the table, and an entry of a later
    OpenStack release has a larger ordinal than an entry of an earlier one.
    For [trusty] without origin it returns the value of [trusty_icehouse],
    for [xenial] with [cloud:xenial-newton] the value of [xenial_newton], and
    for [precise] with [cloud:precise-newton] it raises [KeyError]. *)
Theorem release_ordinals_ordered :
  (∀ self (st : state D) v,
     (_get_openstack_release self st).1 = Ok v → 0 ≤ v < 16)
  ∧ (∀ v, 0 ≤ v < 16 → ∃ k, release_table !! k = Some v)
  ∧ (∀ self1 self2 (st1 st2 : state D) v1 v2,
       (_get_openstack_release self1 st1).1 = Ok v1 →
       (_get_openstack_release self2 st2).1 = Ok v2 →
       ((series self1, openstack self1) ≠ (series self2, openstack self2) → v1 ≠ v2)
       ∧ ∃ c1 c2 i1 i2,
           (_get_openstack_release_string self1 st1).1 = Ok c1
           ∧ (_get_openstack_release_string self2 st2).1 = Ok c2
           ∧ chronology c1 = Some i1 ∧ chronology c2 = Some i2
           ∧ ((i1 < i2)%nat → v1 < v2))
  ∧ (∀ (st : state D) src stb,
       (_get_openstack_release (Deployment (Some "trusty") None src stb) st).1
       = Ok 5
       ∧ release_ordinals !! "trusty_icehouse" = Some 5)
  ∧ (∀ (st : state D) src stb,
       (_get_openstack_release
          (Deployment (Some "xenial") (Some "cloud:xenial-newton") src stb) st).1
       = Ok 14
       ∧ release_ordinals !! "xenial_newton" = Some 14)
  ∧ (∀ (st : state D) src stb,
       (_get_openstack_release
          (Deployment (Some "precise") (Some "cloud:precise-newton") src stb) st).1
       = Raise KeyError).
Proof.
  split; [|split; [|split; [|split; [|split]]]].
  - intros self st v Hv. apply release_table_lookup in Hv.
    pose proof (release_table_ok _ _ Hv _ _ Hv) as (Hr & _). exact Hr.
  - assert (Forall (fun v => ∃ k, release_table !! k = Some v) (seqZ 0 16)) as Hall.
    { assert (Forall (fun v => bool_decide (v ∈ (map_to_list release_table).*2) = true)
                (seqZ 0 16)) as Hd.
      { apply (bool_decide_unpack _). vm_compute. exact I. }
      eapply Forall_impl; [exact Hd|]. intros v Hv. apply bool_decide_eq_true in Hv.
      apply list_elem_of_fmap in Hv as ([k v'] & -> & Hin).
      exists k. by apply elem_of_map_to_list. }
    intros v Hv. apply (proj1 (Forall_forall _ _) Hall). apply elem_of_seqZ. lia.
  - intros self1 self2 st1 st2 v1 v2 H1 H2.
    apply release_table_lookup in H1, H2.
    pose proof (release_table_ok _ _ H1 _ _ H2) as (_ & Hne & Hc).
    split; [exact Hne|]. rewrite !get_openstack_release_string_run. cbn [fst snd] in *.
    rewrite (codename_eta self1), (codename_eta self2) in Hc.
    destruct (codename self1) as [c1|]; [|exfalso; exact Hc].
    destruct (codename self2) as [c2|]; [|exfalso; exact Hc].
    destruct (chronology c1) as [i1|] eqn:E1; [|exfalso; exact Hc].
    destruct (chronology c2) as [i2|] eqn:E2; [|exfalso; exact Hc].
    exists c1, c2, i1, i2. repeat split; [exact E1 | exact E2 | exact Hc].
  - intros st src stb. rewrite get_openstack_release_run. cbn [fst series openstack].
    split; vm_compute; reflexivity.
  - intros st src stb. rewrite get_openstack_release_run. cbn [fst series openstack].
    split; vm_compute; reflexivity.
  - intros st src stb. rewrite get_openstack_release_run. cbn [fst series openstack].
    vm_compute; reflexivity.
Qed.

(** C5.  When the release ordinal of the deployment is [v],
    [get_ceph_expected_pools] returns rbd, cinder, glance if [v] is at or
    after the value of [trusty_kilo] and data, metadata, rbd, cinder, glance
    if it is before, followed by the five gateway pools when [radosgw] is
    set, in this order and with nothing removed. *)
Theorem expected_pools self (radosgw : bool) (st : state D) (v : Z) :
  (_get_openstack_release self st).1 = Ok v →
  ∃ st' kilo,
    attrs st' !! "trusty_kilo" = Some kilo
    ∧ release_ordinals !! "trusty_kilo" = Some kilo
    ∧ get_ceph_expected_pools self radosgw st
      = (Ok ((if bool_decide (kilo ≤ v)
              then ["rbd"; "cinder"; "glance"]
              else ["data"; "metadata"; "rbd"; "cinder"; "glance"])
             ++ (if radosgw
                 then [".rgw.root"; ".rgw.control"; ".rgw"; ".rgw.gc"; ".users.uid"]
                 else [])), st').
Proof.
  intros Hv. apply release_table_lookup in Hv.
  exists (set_attrs (assigned_attrs (attrs st)) st), 8.
  split; [apply assigned_trusty_kilo|]. split; [vm_compute; reflexivity|].
  unfold get_ceph_expected_pools. unfold bind at 1.
  rewrite get_openstack_release_run, Hv.
  unfold bind, getattr. cbn [attrs set_attrs]. rewrite assigned_trusty_kilo.
  unfold ret. f_equal. f_equal.
  rewrite Z.geb_leb.
  destruct (Z.leb_spec 8 v) as [Hle|Hlt].
  - rewrite bool_decide_eq_true_2 by done. destruct radosgw; reflexivity.
  - rewrite bool_decide_eq_false_2 by lia. destruct radosgw; reflexivity.
Qed.

(** C6.  Given a non-empty [exclude_services] together with a non-empty
    [include_only], [_auto_wait_for_status] raises [ValueError] and leaves
    the state as it was: nothing is added to the trace of calls, so
    [wait_for_messages] is not called. *)
Theorem wait_rejects_both self re message (exclude_services include_only : list string)
    (timeout : Z) (st : state D) :
  exclude_services ≠ [] →
  include_only ≠ [] →
  _auto_wait_for_status self re message (Some exclude_services) (Some include_only)
    timeout st
  = (Raise (ValueError "exclude_services can not be used with include_only"), st).
Proof.
  intros He Hi. destruct exclude_services; [done|]. destruct include_only; [done|].
  reflexivity.
Qed.

End ReleaseClaims.

Lemma origin_or_source_witness :
  ∃ rs_b new,
    lists (mem Fixture.st1) !! 0%nat = Some (rs_b ++ [9%nat])
    ∧ calls Fixture.st1 = calls Fixture.st0 ++ new
    ∧ ∀ r svc,
        r ∈ rs_b ++ [9%nat] →
        dicts (mem Fixture.st1) !! r = Some svc →
        let use_source := use_source_or_default None in
        let no_origin := no_origin_or_default None in
        (∀ v, receives new (name svc) "openstack-origin" v
              ↔ Py.truthy (openstack Fixture.xenial_newton) = true
                ∧ openstack Fixture.xenial_newton = Some v
                ∧ (name svc ∉ use_source) ∧ (name svc ∉ no_origin))
        ∧ (∀ v, receives new (name svc) "source" v
                ↔ Py.truthy (source Fixture.xenial_newton) = true
                  ∧ source Fixture.xenial_newton = Some v
                  ∧ (name svc ∈ use_source) ∧ (name svc ∉ no_origin))
        ∧ (∀ v w, ¬ (receives new (name svc) "openstack-origin" v
                     ∧ receives new (name svc) "source" w))
        ∧ (name svc ∈ use_source → name svc ∈ no_origin →
           ∀ v, ¬ receives new (name svc) "source" v).
Proof.
  apply (origin_or_source Fixture.xenial_newton 9 0 None None Fixture.st0 Fixture.st1).
  vm_compute. reflexivity.
Defined.

Lemma locations_set_before_driver_witness :
  ∃ st_r tv others rest,
    _determine_branch_locations Fixture.xenial_newton 0 Fixture.st0 = (Ok 0%nat, st_r)
    ∧ points_to (mem st_r) [1; 2; 3]%nat others
    ∧ Forall (fun svc => ∃ loc, location svc = Some loc ∧ loc ≠ "") others
    ∧ calls (_add_services Fixture.xenial_newton 9 0 None None Fixture.st0).2
      = calls Fixture.st0 ++ CallAddServices tv others :: rest
    ∧ lists (mem st_r) = lists (mem Fixture.st0)
    ∧ attrs st_r = attrs Fixture.st0 ∧ drv st_r = drv Fixture.st0
    ∧ calls st_r = calls Fixture.st0
    ∧ ∀ self', (_get_openstack_release self' st_r).1
               = (_get_openstack_release self' Fixture.st0).1.
Proof.
  apply (locations_set_before_driver Fixture.xenial_newton 9 0 None None
           Fixture.st0 [1; 2; 3]%nat).
  - reflexivity.
  - apply (bool_decide_unpack _). vm_compute. exact I.
  - apply (bool_decide_unpack _). vm_compute. exact I.
Defined.

Lemma target_appended_in_place_witness :
  ∃ st_r tv others h d rs_b new,
    _determine_branch_locations Fixture.xenial_newton 0 Fixture.st0 = (Ok 0%nat, st_r)
    ∧ dicts (mem st_r) !! 9%nat = Some tv
    ∧ (9%nat ∉ [1; 2; 3]%nat → tv = Fixture.cinder)
    ∧ (9%nat ∈ [1; 2; 3]%nat → ∃ loc, location tv = Some loc ∧ loc ≠ "")
    ∧ base_add_services 9 0 (mem st_r) (drv st_r) = (Ok tt, h, d)
    ∧ lists h !! 0%nat = Some rs_b
    ∧ mem Fixture.st1
      = {| dicts := dicts h; lists := <[0%nat := rs_b ++ [9%nat]]> (lists h) |}
    ∧ calls Fixture.st1
      = calls Fixture.st0 ++ CallAddServices tv others :: new
    ∧ ∀ tv', dicts h !! 9%nat = Some tv' →
        (∀ v, receives new (name tv') "openstack-origin" v
              ↔ Py.truthy (openstack Fixture.xenial_newton) = true
                ∧ openstack Fixture.xenial_newton = Some v
                ∧ (name tv' ∉ use_source_or_default None)
                ∧ (name tv' ∉ no_origin_or_default None))
        ∧ (∀ v, receives new (name tv') "source" v
                ↔ Py.truthy (source Fixture.xenial_newton) = true
                  ∧ source Fixture.xenial_newton = Some v
                  ∧ (name tv' ∈ use_source_or_default None)
                  ∧ (name tv' ∉ no_origin_or_default None)).
Proof.
  apply (target_appended_in_place Fixture.xenial_newton 9 0 None None
           Fixture.st0 Fixture.st1 [1; 2; 3]%nat Fixture.cinder).
  - reflexivity.
  - reflexivity.
  - vm_compute. reflexivity.
Defined.

(** C10, as the claim states it, fails when the caller lists the service
    under test among the other services too: the resolution, going through
    the list, gives that dictionary a location, which it still has when
    [_add_services] returns. *)
Lemma target_listed_gets_location :
  ¬ (∀ st' svc svc',
       _add_services Fixture.xenial_newton 9 0 None None Fixture.st0_aliased
       = (Ok tt, st') →
       dicts (mem Fixture.st0_aliased) !! 9%nat = Some svc →
       dicts (mem st') !! 9%nat = Some svc' →
       location svc' = location svc).
Proof.
  intros Hclaim.
  specialize (Hclaim
    (_add_services Fixture.xenial_newton 9 0 None None Fixture.st0_aliased).2
    Fixture.cinder (set_location Fixture.cinder "cs:xenial/cinder")).
  assert (location (set_location Fixture.cinder "cs:xenial/cinder")
          = location Fixture.cinder) as Hloc.
  { apply Hclaim; vm_compute; reflexivity. }
  discriminate Hloc.
Qed.

(** C3, as the spec states it, fails for the codename resolver: the pair
    (precise, cloud:precise-newton) has no entry in the ReleaseTable and the
    resolver returns a codename for it. *)
Lemma codename_of_unmapped_pair :
  ¬ (release_table !! (series Fixture.precise_newton, openstack Fixture.precise_newton)
     = None →
     ∃ e, (_get_openstack_release_string Fixture.precise_newton Fixture.st0).1
          = Raise e).
Proof.
  intros Hclaim. destruct Hclaim as [e He]; [vm_compute; reflexivity|].
  vm_compute in He. discriminate He.
Qed.

Lemma unmapped_release_witness :
  ∃ st', _get_openstack_release Fixture.precise_newton Fixture.st0
         = (Raise KeyError, st').
Proof.
  apply (proj1 (unmapped_release Fixture.precise_newton Fixture.st0)).
  vm_compute. reflexivity.
Defined.

Lemma release_ordinals_ordered_witness : 0 ≤ 14 < 16.
Proof.
  apply (proj1 (release_ordinals_ordered (D := list string))
           Fixture.xenial_newton Fixture.st0 14).
  vm_compute. reflexivity.
Defined.

Lemma expected_pools_witness :
  ∃ st' kilo,
    attrs st' !! "trusty_kilo" = Some kilo
    ∧ release_ordinals !! "trusty_kilo" = Some kilo
    ∧ get_ceph_expected_pools Fixture.xenial_newton true Fixture.st0
      = (Ok ((if bool_decide (kilo ≤ 14)
              then ["rbd"; "cinder"; "glance"]
              else ["data"; "metadata"; "rbd"; "cinder"; "glance"])
             ++ [".rgw.root"; ".rgw.control"; ".rgw"; ".rgw.gc"; ".users.uid"]), st').
Proof.
  apply (expected_pools Fixture.xenial_newton true Fixture.st0 14).
  vm_compute. reflexivity.
Defined.

Lemma wait_rejects_both_witness :
  _auto_wait_for_status Fixture.xenial_newton Fixture.re36 None
    (Some ["mysql"]) (Some ["keystone"]) 1800 Fixture.st0
  = (Raise (ValueError "exclude_services can not be used with include_only"),
     Fixture.st0).
Proof.
  apply (wait_rejects_both Fixture.xenial_newton Fixture.re36 None
           ["mysql"] ["keystone"] 1800 Fixture.st0); discriminate.
Defined.

(** * Further properties *)

(** ** Branch-location resolution *)

Section ResolverMore.

Context {D : Type} `{Driver D}.

Lemma state_eq (st st' : state D) :
  dicts (mem st) = dicts (mem st') → lists (mem st) = lists (mem st') →
  attrs st = attrs st' → drv st = drv st' → calls st = calls st' → st = st'.
Proof.
  destruct st as [[ds ls] a d c], st' as [[ds' ls'] a' d' c']. cbn.
  by intros -> -> -> -> ->.
Qed.

(** X1.  Branch-location resolution is idempotent: a second run on the state
    that the first one left changes nothing. *)
Theorem resolution_idempotent self (l : nat) (rs : list nat) (st : state D) :
  lists (mem st) !! l = Some rs →
  all_bound rs st →
  ∃ st',
    _determine_branch_locations self l st = (Ok l, st')
    ∧ _determine_branch_locations self l st' = (Ok l, st').
Proof.
  intros Hl Hb.
  destruct (determine_branch_locations_run self l rs st Hl Hb)
    as (st' & Hrun & Hls & Ha & Hd & Hc & Hds).
  exists st'. split; [done|].
  assert (all_bound rs st') as Hb'.
  { eapply Forall_impl; [exact (proj2 (Forall_forall _ _) (fun r Hr => conj Hr
      (proj1 (Forall_forall _ _) Hb r Hr)))|].
    cbn. intros r [Hin [svc Hr]]. rewrite Hds, decide_True, Hr by done. by eexists. }
  destruct (determine_branch_locations_run self l rs st' (eq_trans (f_equal (.!! l) Hls) Hl) Hb')
    as (st'' & Hrun' & Hls' & Ha' & Hd' & Hc' & Hds').
  rewrite Hrun'. f_equal. apply state_eq; try done.
  apply map_eq. intros r. rewrite Hds'. case_decide as Hin; [|done].
  rewrite Hds, decide_True by done.
  destruct (dicts (mem st) !! r) as [svc|]; [|done]. cbn. by rewrite resolved_idem.
Qed.

(** X2.  Branch-location resolution touches nothing but the [location] of
    listed dictionaries: every dictionary keeps its name, units and
    constraints, a dictionary that is not listed is unchanged, no dictionary
    appears or disappears, and the lists, the attributes of [self], the
    driver and the trace are as before. *)
Theorem resolution_frame self (l : nat) (rs : list nat) (st : state D) :
  lists (mem st) !! l = Some rs →
  all_bound rs st →
  ∃ st',
    _determine_branch_locations self l st = (Ok l, st')
    ∧ lists (mem st') = lists (mem st)
    ∧ attrs st' = attrs st ∧ drv st' = drv st ∧ calls st' = calls st
    ∧ (∀ r, dicts (mem st) !! r = None → dicts (mem st') !! r = None)
    ∧ (∀ r svc, dicts (mem st) !! r = Some svc →
         ∃ svc', dicts (mem st') !! r = Some svc'
           ∧ name svc' = name svc ∧ units svc' = units svc
           ∧ constraints svc' = constraints svc
           ∧ (r ∉ rs → svc' = svc)).
Proof.
  intros Hl Hb.
  destruct (determine_branch_locations_run self l rs st Hl Hb)
    as (st' & Hrun & Hls & Ha & Hd & Hc & Hds).
  exists st'. repeat (split; [done|]). split.
  - intros r Hr. rewrite Hds, Hr. by case_decide.
  - intros r svc Hr. rewrite Hds, Hr. case_decide as Hin.
    + exists (resolved self svc). cbn. unfold resolved.
      destruct (Py.truthy (location svc)); by repeat split.
    + by exists svc.
Qed.

(** X3.  For a charm of [base_charms] that has no location yet, the series
    in the resolved location is always one that the charm supports, whatever
    the requested series and the [stable] flag are. *)
Theorem base_charm_series_supported self (l : nat) (rs : list nat) (st : state D)
    (r : nat) (svc : service) (supported : list string) :
  lists (mem st) !! l = Some rs →
  all_bound rs st →
  r ∈ rs →
  dicts (mem st) !! r = Some svc →
  Py.truthy (location svc) = false →
  base_charms !! name svc = Some supported →
  ∃ st' t,
    _determine_branch_locations self l st = (Ok l, st')
    ∧ t ∈ supported
    ∧ dicts (mem st') !! r = Some (set_location svc ("cs:" +:+ t +:+ "/" +:+ name svc)).
Proof.
  intros Hl Hb Hin Hr Hloc Hsup.
  destruct (determine_branch_locations_run self l rs st Hl Hb)
    as (st' & Hrun & _ & _ & _ & _ & Hds).
  assert (dicts (mem st') !! r = Some (set_location svc (spec_location self (name svc))))
    as Hr'.
  { rewrite Hds, decide_True, Hr by done. cbn. unfold resolved. by rewrite Hloc. }
  unfold spec_location in Hr'. rewrite Hsup in Hr'.
  destruct (series_in (series self) supported) eqn:Es.
  - unfold series_in in Es. destruct (series self) as [s|]; [|done].
    apply bool_decide_eq_true in Es. by exists st', s.
  - destruct (base_charms_last _ _ Hsup) as [t Ht]. rewrite Ht in Hr'.
    exists st', t. repeat split; try done.
    rewrite last_lookup in Ht. by eapply list_elem_of_lookup_2.
Qed.

End ResolverMore.

Lemma resolution_idempotent_witness :
  ∃ st',
    _determine_branch_locations Fixture.trusty_next 0 Fixture.st0 = (Ok 0%nat, st')
    ∧ _determine_branch_locations Fixture.trusty_next 0 st' = (Ok 0%nat, st').
Proof.
  apply (resolution_idempotent Fixture.trusty_next 0 [1; 2; 3]%nat Fixture.st0).
  - reflexivity.
  - apply (bool_decide_unpack _). vm_compute. exact I.
Defined.

Lemma resolution_frame_witness :
  ∃ st',
    _determine_branch_locations Fixture.trusty_next 0 Fixture.st0 = (Ok 0%nat, st')
    ∧ lists (mem st') = lists (mem Fixture.st0)
    ∧ attrs st' = attrs Fixture.st0 ∧ drv st' = drv Fixture.st0
    ∧ calls st' = calls Fixture.st0
    ∧ (∀ r, dicts (mem Fixture.st0) !! r = None → dicts (mem st') !! r = None)
    ∧ (∀ r svc, dicts (mem Fixture.st0) !! r = Some svc →
         ∃ svc', dicts (mem st') !! r = Some svc'
           ∧ name svc' = name svc ∧ units svc' = units svc
           ∧ constraints svc' = constraints svc
           ∧ (r ∉ [1; 2; 3]%nat → svc' = svc)).
Proof.
  apply (resolution_frame Fixture.trusty_next 0 [1; 2; 3]%nat Fixture.st0).
  - reflexivity.
  - apply (bool_decide_unpack _). vm_compute. exact I.
Defined.

Lemma base_charm_series_supported_witness :
  ∃ st' t,
    _determine_branch_locations Fixture.xenial_newton 0 Fixture.st0 = (Ok 0%nat, st')
    ∧ t ∈ ["precise"; "trusty"]
    ∧ dicts (mem st') !! 1%nat
      = Some (set_location Fixture.mysql ("cs:" +:+ t +:+ "/" +:+ "mysql")).
Proof.
  apply (base_charm_series_supported Fixture.xenial_newton 0 [1; 2; 3]%nat
           Fixture.st0 1 Fixture.mysql ["precise"; "trusty"]).
  - reflexivity.
  - apply (bool_decide_unpack _). vm_compute. exact I.
  - apply (bool_decide_unpack _). vm_compute. exact I.
  - reflexivity.
  - reflexivity.
  - vm_compute. reflexivity.
Defined.

(** ** Adding and configuring services *)

Section AddServicesMore.

Context {D : Type} `{Driver D}.

(** X4.  The calls of a normal run of [_add_services], in order: the base
    class first; then, if an origin is set, [openstack-origin] for the
    services of the combined list whose name is in neither override list, in
    list order; then, if a source is set, [source] for those whose name is in
    [use_source] and not in [no_origin], in list order. *)
Theorem add_services_trace self (this l : nat) us no (st st' : state D) :
  _add_services self this l us no st = (Ok tt, st') →
  ∃ tv others rs_b,
    lists (mem st') !! l = Some (rs_b ++ [this])
    ∧ let svcs := deref (mem st') (rs_b ++ [this]) in
      let use_source := use_source_or_default us in
      let no_origin := no_origin_or_default no in
      calls st' =
        calls st
        ++ CallAddServices tv others
        :: (if Py.truthy (openstack self)
            then (fun svc => CallConfigure (name svc)
                               {[ "openstack-origin" := Py.str (openstack self) ]})
                   <$> filter (fun svc => (name svc ∉ use_source)
                                          ∧ (name svc ∉ no_origin)) svcs
            else [])
        ++ (if Py.truthy (source self)
            then (fun svc => CallConfigure (name svc)
                               {[ "source" := Py.str (source self) ]})
                   <$> filter (fun svc => (name svc ∈ use_source)
                                          ∧ (name svc ∉ no_origin)) svcs
            else []).
Proof.
  intros Hrun.
  destruct (add_services_ok _ _ _ _ _ _ _ Hrun)
    as (st_r & tv & rs & others & h & d & rs_b & _ & _ & _ & _ & _ & _ & Hmem & Hcalls).
  exists tv, others, rs_b. split; [rewrite Hmem; cbn; apply lookup_insert_eq|].
  cbv zeta. rewrite Hcalls. unfold origin_calls, source_calls, configure_calls.
  do 3 f_equal.
  - destruct (Py.truthy (openstack self)); [|done]. f_equal.
    apply list_filter_iff. intros svc. apply origin_test_true.
  - destruct (Py.truthy (source self)); [|done]. f_equal.
    apply list_filter_iff. intros svc. apply source_test_true.
Qed.

(** X5.  When the base class raises, [_add_services] raises the same
    exception: the base class has been called once, with the resolved
    services, no service is configured and the service under test is not
    appended to the list. *)
Theorem add_services_base_failure self (this l : nat) us no (st st_r : state D)
    (tv : service) (e : exn) (h : heap) (d : D) :
  _determine_branch_locations self l st = (Ok l, st_r) →
  dicts (mem st_r) !! this = Some tv →
  base_add_services this l (mem st_r) (drv st_r) = (Raise e, h, d) →
  ∃ others,
    _add_services self this l us no st
    = (Raise e, {| mem := h; attrs := attrs st; drv := d;
                   calls := calls st ++ [CallAddServices tv others] |}).
Proof.
  intros Hres Htv Hbase.
  destruct (determine_branch_locations_ok _ _ _ _ _ Hres) as (_ & rs & Hl & Hb).
  destruct (determine_branch_locations_run self l rs st Hl Hb)
    as (st_r' & Hres' & Hlr & Har & _ & Hcr & Hds).
  rewrite Hres in Hres'. inversion Hres'; subst st_r'; clear Hres'.
  destruct (resolved_points_to self rs st st_r Hb Hds) as (others & Hp & _).
  exists others. unfold _add_services. unfold bind at 1. rewrite Hres.
  cbv beta iota. unfold bind at 1.
  rewrite (super_add_services_run this l st_r tv rs others Htv) by (by rewrite ?Hlr).
  rewrite Hbase. unfold set_drv, set_mem, log_call. cbn. by rewrite Har, Hcr.
Qed.

(** X6.  Every [configure] call of a normal run of [_add_services] is for a
    service of the combined list whose name is not in [no_origin], and sets
    exactly one option: [openstack-origin] to the origin string, or [source]
    to the source string. *)
Theorem add_services_configures_only self (this l : nat) us no (st st' : state D)
    (new : list call) (nm : string) (config : gmap string string) :
  _add_services self this l us no st = (Ok tt, st') →
  calls st' = calls st ++ new →
  CallConfigure nm config ∈ new →
  (nm ∉ no_origin_or_default no)
  ∧ (∃ rs r svc, lists (mem st') !! l = Some rs ∧ r ∈ rs
       ∧ dicts (mem st') !! r = Some svc ∧ name svc = nm)
  ∧ (config = {[ "openstack-origin" := Py.str (openstack self) ]}
       ∧ Py.truthy (openstack self) = true
       ∧ (nm ∉ use_source_or_default us)
     ∨ config = {[ "source" := Py.str (source self) ]}
       ∧ Py.truthy (source self) = true
       ∧ (nm ∈ use_source_or_default us)).
Proof.
  intros Hrun Hcalls Hin.
  destruct (add_services_ok _ _ _ _ _ _ _ Hrun)
    as (st_r & tv & rs & others & h & d & rs_b & _ & _ & _ & _ & _ & _ & Hmem & Hc).
  rewrite Hc in Hcalls. apply app_inv_head in Hcalls. subst new.
  apply elem_of_cons in Hin as [Hin|Hin]; [done|].
  assert (∀ svc, svc ∈ deref (mem st') (rs_b ++ [this]) → name svc = nm →
            ∃ rs r svc, lists (mem st') !! l = Some rs ∧ r ∈ rs
              ∧ dicts (mem st') !! r = Some svc ∧ name svc = nm) as Hlisted.
  { intros svc Hsvc Hnm. apply list_elem_of_omap in Hsvc as (r & Hr & Hd).
    exists (rs_b ++ [this]), r, svc. repeat split; try done.
    rewrite Hmem. cbn. apply lookup_insert_eq. }
  unfold origin_calls, source_calls in Hin. apply elem_of_app in Hin as [Hin|Hin].
  - destruct (Py.truthy (openstack self)) eqn:Ht; [|by apply elem_of_nil in Hin].
    apply elem_of_configure_calls in Hin as (-> & Htest & svc & Hsvc & Hnm).
    apply origin_test_true in Htest as [Hu Hn]. split; [done|]. split; [eauto|].
    left. done.
  - destruct (Py.truthy (source self)) eqn:Ht; [|by apply elem_of_nil in Hin].
    apply elem_of_configure_calls in Hin as (-> & Htest & svc & Hsvc & Hnm).
    apply source_test_true in Htest as [Hu Hn]. split; [done|]. split; [eauto|].
    right. done.
Qed.

Lemma configure_services_run (configs : list (string * gmap string string)) :
  ∀ (st : state D) r st',
    for_each configs (fun sc => d_configure sc.1 sc.2) st = (r, st') →
    mem st' = mem st ∧ attrs st' = attrs st
    ∧ match r with
      | Ok _ =>
          calls st' = calls st ++ ((fun sc => CallConfigure sc.1 sc.2) <$> configs)
      | Raise e =>
          ∃ before sc after,
            configs = before ++ sc :: after
            ∧ calls st' = calls st
                ++ ((fun sc => CallConfigure sc.1 sc.2) <$> before ++ [sc])
      end.
Proof.
  induction configs as [|sc configs IH]; intros st r st' Hrun.
  - inversion Hrun; subst. cbn. by rewrite app_nil_r.
  - cbn [for_each] in Hrun. unfold bind at 1, d_configure at 1 in Hrun.
    destruct (configure sc.1 sc.2 (drv (log_call (CallConfigure sc.1 sc.2) st)))
      as [[[]|e] d] eqn:Hc.
    + apply IH in Hrun as (Hm & Ha & Hr). rewrite Hm, Ha. repeat split.
      destruct r as [[]|e].
      * rewrite Hr. cbn. by rewrite <- app_assoc.
      * destruct Hr as (before & sc' & after & -> & Hr).
        exists (sc :: before), sc', after. split; [done|].
        rewrite Hr. cbn. by rewrite <- app_assoc.
    + inversion Hrun; subst. repeat split. exists [], sc, configs. by split.
Qed.

(** X7.  A normal run of [_configure_services] has configured every service
    of [configs] once, with its own options, in the order of the items; it
    changes neither the heap nor the attributes of [self]. *)
Theorem configure_services_all self (configs : list (string * gmap string string))
    (st st' : state D) :
  _configure_services self configs st = (Ok tt, st') →
  calls st' = calls st ++ ((fun sc => CallConfigure sc.1 sc.2) <$> configs)
  ∧ mem st' = mem st ∧ attrs st' = attrs st.
Proof.
  intros Hrun. apply configure_services_run in Hrun as (Hm & Ha & Hc). done.
Qed.


End AddServicesMore.

Lemma add_services_trace_witness :
  ∃ tv others rs_b,
    lists (mem Fixture.st1) !! 0%nat = Some (rs_b ++ [9%nat])
    ∧ let svcs := deref (mem Fixture.st1) (rs_b ++ [9%nat]) in
      let use_source := use_source_or_default None in
      let no_origin := no_origin_or_default None in
      calls Fixture.st1 =
        calls Fixture.st0
        ++ CallAddServices tv others
        :: (if Py.truthy (openstack Fixture.xenial_newton)
            then (fun svc => CallConfigure (name svc)
                               {[ "openstack-origin"
                                    := Py.str (openstack Fixture.xenial_newton) ]})
                   <$> filter (fun svc => (name svc ∉ use_source)
                                          ∧ (name svc ∉ no_origin)) svcs
            else [])
        ++ (if Py.truthy (source Fixture.xenial_newton)
            then (fun svc => CallConfigure (name svc)
                               {[ "source" := Py.str (source Fixture.xenial_newton) ]})
                   <$> filter (fun svc => (name svc ∈ use_source)
                                          ∧ (name svc ∉ no_origin)) svcs
            else []).
Proof.
  apply (add_services_trace Fixture.xenial_newton 9 0 None None Fixture.st0 Fixture.st1).
  vm_compute. reflexivity.
Defined.

Lemma add_services_base_failure_witness :
  ∃ others,
    _add_services Fixture.xenial_newton 9 0 None None Fixture.st0_refusing
    = (Raise (DriverError "The charm's root directory name needs to be cinder"),
       {| mem := mem (_determine_branch_locations Fixture.xenial_newton 0
                        Fixture.st0_refusing).2;
          attrs := attrs Fixture.st0_refusing; drv := tt;
          calls := calls Fixture.st0_refusing
                   ++ [CallAddServices Fixture.cinder others] |}).
Proof.
  apply (add_services_base_failure Fixture.xenial_newton 9 0 None None
           Fixture.st0_refusing
           (_determine_branch_locations Fixture.xenial_newton 0 Fixture.st0_refusing).2
           Fixture.cinder).
  - vm_compute. reflexivity.
  - vm_compute. reflexivity.
  - reflexivity.
Defined.

Lemma add_services_configures_only_witness :
  ("keystone" ∉ no_origin_or_default None)
  ∧ (∃ rs r svc, lists (mem Fixture.st1) !! 0%nat = Some rs ∧ r ∈ rs
       ∧ dicts (mem Fixture.st1) !! r = Some svc ∧ name svc = "keystone")
  ∧ (({[ "openstack-origin" := "cloud:xenial-newton" ]} : gmap string string)
       = {[ "openstack-origin" := Py.str (openstack Fixture.xenial_newton) ]}
       ∧ Py.truthy (openstack Fixture.xenial_newton) = true
       ∧ ("keystone" ∉ use_source_or_default None)
     ∨ ({[ "openstack-origin" := "cloud:xenial-newton" ]} : gmap string string)
       = {[ "source" := Py.str (source Fixture.xenial_newton) ]}
       ∧ Py.truthy (source Fixture.xenial_newton) = true
       ∧ ("keystone" ∈ use_source_or_default None)).
Proof.
  apply (add_services_configures_only Fixture.xenial_newton 9 0 None None
           Fixture.st0 Fixture.st1 (calls Fixture.st1)).
  - vm_compute. reflexivity.
  - reflexivity.
  - apply (list_elem_of_lookup_2 _ 1%nat). vm_compute. reflexivity.
Defined.

Lemma configure_services_all_witness :
  calls (_configure_services Fixture.xenial_newton Fixture.configs Fixture.st1).2
  = calls Fixture.st1 ++ ((fun sc => CallConfigure sc.1 sc.2) <$> Fixture.configs)
  ∧ mem (_configure_services Fixture.xenial_newton Fixture.configs Fixture.st1).2
    = mem Fixture.st1
  ∧ attrs (_configure_services Fixture.xenial_newton Fixture.configs Fixture.st1).2
    = attrs Fixture.st1.
Proof.
  apply (configure_services_all Fixture.xenial_newton Fixture.configs Fixture.st1).
  vm_compute. reflexivity.
Defined.


(** ** Waiting for the status *)

Section WaitMore.

Context {D : Type} `{Driver D}.

Lemma auto_wait_for_status_run self re message (exclude_services include_only :
    option (list string)) (timeout : Z) (st : state D) :
  Py.truthy_list exclude_services && Py.truthy_list include_only = false →
  (message_truthy message = true → Py.has_pattern_type re = true) →
  _auto_wait_for_status self re message exclude_services include_only timeout st
  = d_wait_for_messages
      (list_to_map ((fun service => (service, waited_message message))
                      <$> waited_services exclude_services include_only
                            (services_keys (drv st))))
      timeout st.
Proof.
  intros Hne Hre. unfold _auto_wait_for_status, bind, d_services_keys. rewrite Hne.
  cbv beta iota. unfold ret at 1. cbv beta iota.
  assert ((if message_truthy message
           then if Py.has_pattern_type re then ret tt
                else raise (AttributeError "_pattern_type")
           else ret tt) st = (Ok tt, st)) as ->.
  { destruct (message_truthy message); [by rewrite Hre|done]. }
  cbv beta iota. unfold waited_message, waited_services.
  destruct include_only as [[|i inc]|], exclude_services as [[|x ex]|];
    try reflexivity; done.
Qed.

Lemma auto_wait_for_status_no_pattern_type self re message (exclude_services
    include_only : option (list string)) (timeout : Z) (st : state D) :
  Py.truthy_list exclude_services && Py.truthy_list include_only = false →
  message_truthy message = true →
  Py.has_pattern_type re = false →
  _auto_wait_for_status self re message exclude_services include_only timeout st
  = (Raise (AttributeError "_pattern_type"), st).
Proof.
  intros Hne Hm Hre. unfold _auto_wait_for_status, bind, d_services_keys.
  rewrite Hne, Hm, Hre. reflexivity.
Qed.

(** X9.  Unless both selections are given, and provided the message is
    empty or [re._pattern_type] exists, [_auto_wait_for_status] makes one
    [wait_for_messages] call, with the caller's timeout, and ends as that
    call ends.  It waits for the services of [include_only] when that list
    is not empty, deployed or not, and otherwise for the deployed services
    that are not in [exclude_services]. *)
Theorem wait_for_status_services self re message (exclude_services include_only :
    option (list string)) (timeout : Z) (st : state D) :
  Py.truthy_list exclude_services && Py.truthy_list include_only = false →
  (message_truthy message = true → Py.has_pattern_type re = true) →
  ∃ messages,
    _auto_wait_for_status self re message exclude_services include_only timeout st
    = ((wait_for_messages messages timeout (drv st)).1,
       {| mem := mem st; attrs := attrs st;
          drv := (wait_for_messages messages timeout (drv st)).2;
          calls := calls st ++ [CallWaitForMessages messages timeout] |})
    ∧ ∀ s, is_Some (messages !! s)
           ↔ if Py.truthy_list include_only
             then s ∈ default [] include_only
             else s ∈ services_keys (drv st) ∧ (s ∉ default [] exclude_services).
Proof.
  intros Hne Hre.
  exists (list_to_map ((fun service => (service, waited_message message))
                         <$> waited_services exclude_services include_only
                               (services_keys (drv st)))).
  split.
  - rewrite auto_wait_for_status_run by done. unfold d_wait_for_messages.
    cbn [drv log_call].
    destruct (wait_for_messages _ timeout (drv st)) as [r d]. reflexivity.
  - intros s. rewrite <- not_eq_None_Some, <- not_elem_of_list_to_map.
    rewrite <- list_fmap_compose. change (fst ∘ _) with (@id string).
    rewrite list_fmap_id. unfold waited_services.
    destruct (Py.truthy_list include_only).
    + split; [apply dec_stable | by intros ? ?].
    + rewrite elem_of_elements, elem_of_difference, !elem_of_list_to_set.
      assert ((if Py.truthy_list exclude_services
               then default [] exclude_services else [])
              = default [] exclude_services) as ->.
      { by destruct exclude_services as [[|x ex]|]. }
      split; [apply dec_stable | by intros ? ?].
Qed.

(** X10.  What [_auto_wait_for_status] does with the message, unless both
    selections are given.  A message that is not true in Python's sense
    ([None], an empty string, an empty set) is replaced by the pattern
    [.*ready.*] that ignores case.  A message that is true (a compiled
    pattern, a non-empty string or set) makes the method read
    [re._pattern_type]: where that attribute exists the message is passed
    on as it is, for every service alike; where it does not, the method
    raises [AttributeError] and [wait_for_messages] is not called. *)
Theorem wait_for_status_message self re message (exclude_services include_only :
    option (list string)) (timeout : Z) (st : state D) :
  Py.truthy_list exclude_services && Py.truthy_list include_only = false →
  (message_truthy message = true → Py.has_pattern_type re = false →
   _auto_wait_for_status self re message exclude_services include_only timeout st
   = (Raise (AttributeError "_pattern_type"), st))
  ∧ ((message_truthy message = true → Py.has_pattern_type re = true) →
     ∃ messages,
       calls (_auto_wait_for_status self re message exclude_services include_only
                timeout st).2
       = calls st ++ [CallWaitForMessages messages timeout]
       ∧ ∀ s m, messages !! s = Some m →
           (message_truthy message = true → message = Some m)
           ∧ (message_truthy message = false → m = Pattern ".*ready.*" true)).
Proof.
  intros Hne. split.
  - intros Hm Hre. by apply auto_wait_for_status_no_pattern_type.
  - intros Hre.
    exists (list_to_map ((fun service => (service, waited_message message))
                           <$> waited_services exclude_services include_only
                                 (services_keys (drv st)))).
    split.
    + rewrite auto_wait_for_status_run by done. unfold d_wait_for_messages.
      cbn [drv log_call].
      destruct (wait_for_messages _ timeout (drv st)) as [r d]. reflexivity.
    + intros s m Hm. apply elem_of_list_to_map_2 in Hm.
      apply list_elem_of_fmap in Hm as (s' & Heq & _). inversion Heq; subst.
      unfold waited_message. destruct message as [m|]; [|done].
      destruct (message_truthy (Some m)); done.
Qed.

End WaitMore.

Lemma wait_for_status_services_witness :
  ∃ messages,
    _auto_wait_for_status Fixture.xenial_newton Fixture.re37 None (Some ["mysql"]) None
      1800 Fixture.st1
    = ((wait_for_messages messages 1800 (drv Fixture.st1)).1,
       {| mem := mem Fixture.st1; attrs := attrs Fixture.st1;
          drv := (wait_for_messages messages 1800 (drv Fixture.st1)).2;
          calls := calls Fixture.st1 ++ [CallWaitForMessages messages 1800] |})
    ∧ ∀ s, is_Some (messages !! s)
           ↔ if Py.truthy_list (None : option (list string))
             then s ∈ default [] None
             else s ∈ services_keys (drv Fixture.st1) ∧ (s ∉ default [] (Some ["mysql"])).
Proof.
  apply (wait_for_status_services Fixture.xenial_newton Fixture.re37 None
           (Some ["mysql"]) None 1800 Fixture.st1).
  - reflexivity.
  - discriminate.
Defined.

Lemma wait_for_status_message_witness :
  ∃ messages,
    calls (_auto_wait_for_status Fixture.xenial_newton Fixture.re36
             (Some (Pattern "^Unit is ready$" false))
             None (Some ["keystone"]) 600 Fixture.st1).2
    = calls Fixture.st1 ++ [CallWaitForMessages messages 600]
    ∧ ∀ s m, messages !! s = Some m →
        (message_truthy (Some (Pattern "^Unit is ready$" false)) = true →
         Some (Pattern "^Unit is ready$" false) = Some m)
        ∧ (message_truthy (Some (Pattern "^Unit is ready$" false)) = false →
           m = Pattern ".*ready.*" true).
Proof.
  apply (proj2 (wait_for_status_message Fixture.xenial_newton Fixture.re36
                  (Some (Pattern "^Unit is ready$" false))
                  None (Some ["keystone"]) 600 Fixture.st1 eq_refl)).
  reflexivity.
Defined.

(** ** Releases and pools *)

Section ReleaseMore.

Context {D : Type} `{Driver D}.

(** X11.  Whatever it returns, [_get_openstack_release] leaves the sixteen
    release attributes on [self] with the values 0 to 15, in the order of
    the assignment; it changes no other attribute, nor the heap, the driver
    or the trace. *)
Theorem release_attributes_assigned self (st : state D) :
  let st' := (_get_openstack_release self st).2 in
  (∀ (i : nat) a, release_attrs !! i = Some a → attrs st' !! a = Some (Z.of_nat i))
  ∧ (∀ a, a ∉ release_attrs → attrs st' !! a = attrs st !! a)
  ∧ mem st' = mem st ∧ drv st' = drv st ∧ calls st' = calls st.
Proof.
  cbv zeta. rewrite get_openstack_release_run. cbn [snd attrs set_attrs mem drv calls].
  rewrite assigned_attrs_union. split; [|split; [|done]].
  - intros i a Hi. apply lookup_union_Some_l. revert Hi.
    do 16 (destruct i as [|i];
           [intros Hi; inversion Hi; subst; vm_compute; reflexivity|]).
    intros Hi. inversion Hi.
  - intros a Ha. apply lookup_union_r. apply not_elem_of_list_to_map_1.
    assert ((zip release_attrs (seqZ 0 16)).*1 = release_attrs) as ->; [|done].
    vm_compute. reflexivity.
Qed.

Lemma get_ceph_expected_pools_run self (radosgw : bool) (st : state D) :
  get_ceph_expected_pools self radosgw st
  = (match release_table !! (series self, openstack self) with
     | Some v =>
         Ok ((if 8 <=? v then ["rbd"; "cinder"; "glance"]
              else ["data"; "metadata"; "rbd"; "cinder"; "glance"])
             ++ (if radosgw
                 then [".rgw.root"; ".rgw.control"; ".rgw"; ".rgw.gc"; ".users.uid"]
                 else []))
     | None => Raise KeyError
     end, set_attrs (assigned_attrs (attrs st)) st).
Proof.
  unfold get_ceph_expected_pools. unfold bind at 1.
  rewrite get_openstack_release_run.
  destruct (release_table !! (series self, openstack self)) as [v|]; [|done].
  unfold bind, getattr. cbn [attrs set_attrs]. rewrite assigned_trusty_kilo.
  unfold ret. rewrite Z.geb_leb.
  destruct (8 <=? v), radosgw; reflexivity.
Qed.

(** X12.  [get_ceph_expected_pools] can be called on a deployment whose
    release attributes were never assigned: it fails only with [KeyError],
    and does so exactly for the (series, origin) pairs that the release
    table does not have. *)
Theorem expected_pools_failure self (radosgw : bool) (st : state D) :
  (∀ e, (get_ceph_expected_pools self radosgw st).1 = Raise e → e = KeyError)
  ∧ ((get_ceph_expected_pools self radosgw st).1 = Raise KeyError
     ↔ release_table !! (series self, openstack self) = None).
Proof.
  rewrite get_ceph_expected_pools_run. cbn [fst].
  destruct (release_table !! (series self, openstack self)) as [v|].
  - split; [intros e He; inversion He|]. split; intros He; inversion He.
  - split; [intros e He; by inversion He|]. done.
Qed.

(** X13.  The pools that [get_ceph_expected_pools] returns are distinct,
    rbd, cinder and glance are always among them, and data and metadata are
    among them exactly when the release of the deployment, as the codename
    resolver names it, is older than Kilo. *)
Theorem expected_pools_by_release self (radosgw : bool) (st : state D)
    (pools : list string) :
  (get_ceph_expected_pools self radosgw st).1 = Ok pools →
  NoDup pools
  ∧ "rbd" ∈ pools ∧ "cinder" ∈ pools ∧ "glance" ∈ pools
  ∧ ∃ c i kilo,
      (_get_openstack_release_string self st).1 = Ok c
      ∧ chronology c = Some i ∧ chronology "kilo" = Some kilo
      ∧ ("data" ∈ pools ↔ (i < kilo)%nat)
      ∧ ("metadata" ∈ pools ↔ (i < kilo)%nat).
Proof.
  rewrite get_ceph_expected_pools_run, get_openstack_release_string_run. cbn [fst].
  destruct (release_table !! (series self, openstack self)) as [v|] eqn:Hv; [|done].
  intros Hp. inversion Hp; subst pools; clear Hp.
  assert (map_Forall kilo_split release_table) as Hsplit.
  { apply (bool_decide_unpack _). vm_compute. exact I. }
  specialize (Hsplit _ _ Hv). unfold kilo_split in Hsplit. cbn [fst snd] in Hsplit.
  rewrite codename_eta in Hsplit.
  destruct (codename self) as [c|]; [|exfalso; exact Hsplit].
  destruct (chronology c) as [i|] eqn:Ei; [|exfalso; exact Hsplit].
  destruct (chronology "kilo") as [kilo|] eqn:Ek; [|exfalso; exact Hsplit].
  assert (∀ b : bool,
            NoDup ((if b then ["rbd"; "cinder"; "glance"]
                    else ["data"; "metadata"; "rbd"; "cinder"; "glance"])
                   ++ (if radosgw
                       then [".rgw.root"; ".rgw.control"; ".rgw"; ".rgw.gc"; ".users.uid"]
                       else []))) as Hnd.
  { intros b. apply (bool_decide_unpack _). by destruct b, radosgw. }
  split; [apply Hnd|].
  assert (∀ (x : string) (b : bool),
            bool_decide (x ∈ (if b then ["rbd"; "cinder"; "glance"]
                              else ["data"; "metadata"; "rbd"; "cinder"; "glance"])) = true →
            x ∈ (if b then ["rbd"; "cinder"; "glance"]
                 else ["data"; "metadata"; "rbd"; "cinder"; "glance"])
                ++ (if radosgw
                    then [".rgw.root"; ".rgw.control"; ".rgw"; ".rgw.gc"; ".users.uid"]
                    else [])) as Hbase.
  { intros x b Hx. apply elem_of_app. left. by apply bool_decide_eq_true in Hx. }
  split; [by apply Hbase; destruct (8 <=? v)|].
  split; [by apply Hbase; destruct (8 <=? v)|].
  split; [by apply Hbase; destruct (8 <=? v)|].
  exists c, i, kilo.
  split; [reflexivity|]. split; [exact Ei|]. split; [first [exact Ek | reflexivity]|].
  assert (∀ x, x = "data" ∨ x = "metadata" →
            x ∈ (if 8 <=? v then ["rbd"; "cinder"; "glance"]
                 else ["data"; "metadata"; "rbd"; "cinder"; "glance"])
                ++ (if radosgw
                    then [".rgw.root"; ".rgw.control"; ".rgw"; ".rgw.gc"; ".users.uid"]
                    else [])
            ↔ (i < kilo)%nat) as Hold.
  { intros x Hx. destruct (Z.leb_spec 8 v) as [Hle|Hlt].
    - split.
      + intros Hin. exfalso. revert Hin. apply (bool_decide_unpack _).
        by destruct Hx as [-> | ->], radosgw.
      + intros Hlt. apply Hsplit in Hle. lia.
    - split.
      + intros _. destruct (decide (i < kilo)%nat) as [|Hge]; [done|].
        assert (8 ≤ v) by (apply Hsplit; lia). lia.
      + intros _. apply elem_of_app. left. apply (bool_decide_unpack _).
        by destruct Hx as [-> | ->]. }
  split; apply Hold; [by left | by right].
Qed.

End ReleaseMore.

(** ** The codename read from the origin string *)

Section CodenameMore.

Context {D : Type} `{Driver D}.

Lemma split_from_nonempty (sep s : string) : ∀ skip cur,
  ∃ x xs, Py.split_from sep s skip cur = x :: xs.
Proof.
  induction s as [|c s IH]; intros skip cur; [by eexists _, _|].
  cbn [Py.split_from]. destruct skip as [|k]; [|apply IH].
  destruct (Py.starts_with sep (String c s)); [by eexists _, _ | apply IH].
Qed.

(** [s.split(sep)] has a second piece exactly when [sep] occurs in [s]. *)
Lemma split_second (sep s : string) :
  sep ≠ "" →
  is_Some (Py.split sep s !! 1%nat) ↔ Py.contains sep s = true.
Proof.
  intros Hsep. split.
  - intros Hsome. destruct (Py.contains sep s) eqn:Hc; [done|].
    unfold Py.split in Hsome. rewrite split_from_none in Hsome by done.
    by destruct Hsome.
  - unfold Py.split. generalize "". induction s as [|c s IH]; intros cur Hc.
    + destruct sep; done.
    + cbn [Py.contains] in Hc. cbn [Py.split_from].
      destruct (Py.starts_with sep (String c s)) eqn:Hs.
      * destruct (split_from_nonempty sep s (String.length sep - 1) "") as (x & xs & ->).
        by eexists.
      * apply IH. by rewrite orb_false_l in Hc.
Qed.

(** X14.  With an origin string, [_get_openstack_release_string] never fails
    with anything but [IndexError], and it fails exactly when the origin has
    no colon or when the text between its first and its second colon does
    not contain [<series>-]. *)
Theorem codename_index_error self (st : state D) :
  Py.truthy (openstack self) = true →
  (∀ e, (_get_openstack_release_string self st).1 = Raise e → e = IndexError)
  ∧ ((_get_openstack_release_string self st).1 = Raise IndexError
     ↔ Py.contains ":" (Py.str (openstack self)) = false
       ∨ ∃ os_origin,
           Py.split ":" (Py.str (openstack self)) !! 1%nat = Some os_origin
           ∧ Py.contains (Py.str (series self) +:+ "-") os_origin = false).
Proof.
  intros Ht. unfold _get_openstack_release_string. rewrite Ht.
  unfold bind, item1, item0.
  assert (Py.str (series self) +:+ "-" ≠ "") as Hmark.
  { by destruct (Py.str (series self)). }
  destruct (Py.split ":" (Py.str (openstack self)) !! 1%nat) as [os_origin|] eqn:Eo.
  - assert (Py.contains ":" (Py.str (openstack self)) = true) as Hcolon.
    { apply split_second; [done | by rewrite Eo]. }
    cbn [fst ret].
    destruct (Py.split (Py.str (series self) +:+ "-") os_origin !! 1%nat)
      as [after|] eqn:Ea.
    + assert (Py.contains (Py.str (series self) +:+ "-") os_origin = true) as Hm.
      { apply split_second; [done | by rewrite Ea]. }
      cbn [fst ret].
      destruct (split_from_nonempty "/" after 0 "") as (x & xs & Hx).
      unfold Py.split. rewrite Hx. cbn. split; [done|]. split; [done|].
      intros [Hc | (o & Ho & Hc)]; [congruence|]. inversion Ho; subst. congruence.
    + assert (Py.contains (Py.str (series self) +:+ "-") os_origin = false) as Hm.
      { destruct (Py.contains _ os_origin) eqn:E; [|done].
        apply split_second in E as [x Hx]; [congruence | done]. }
      cbn. split; [by intros e [= <-]|]. split; [|done]. intros _. right. eauto.
  - assert (Py.contains ":" (Py.str (openstack self)) = false) as Hcolon.
    { destruct (Py.contains ":" _) eqn:E; [|done].
      apply split_second in E as [x Hx]; [congruence | done]. }
    cbn. split; [by intros e [= <-]|]. split; [|done]. intros _. by left.
Qed.

(** The first piece for a separator of one character. *)
Lemma split_from_until (a : Ascii.ascii) (p s : string) : ∀ cur,
  Py.contains (String a "") p = false →
  Py.split_from (String a "") (p +:+ String a s) 0 cur
  = (cur +:+ p) :: Py.split_from (String a "") s 0 "".
Proof.
  induction p as [|b p IH]; intros cur Hc.
  - change ("" +:+ String a s) with (String a s). cbn [Py.split_from Py.starts_with].
    rewrite Ascii.eqb_refl. destruct s; by rewrite str_app_nil_r.
  - change (String b p +:+ String a s) with (String b (p +:+ String a s)).
    cbn [Py.contains Py.starts_with] in Hc. apply orb_false_iff in Hc as [Hb Hc].
    cbn [Py.split_from Py.starts_with].
    destruct (Ascii.eqb a b); [by destruct p|].
    rewrite IH by done. by rewrite str_app_assoc.
Qed.

(** X15.  From an origin [cloud:<series>-<codename>/<pocket>] the codename
    resolver returns the codename: what follows the first slash is dropped. *)
Theorem codename_with_pocket self (st : state D) (s c pocket : string) :
  series self = Some s →
  openstack self = Some ("cloud:" +:+ s +:+ "-" +:+ c +:+ "/" +:+ pocket) →
  Py.contains ":" (s +:+ "-" +:+ c +:+ "/" +:+ pocket) = false →
  Py.contains (s +:+ "-") (c +:+ "/" +:+ pocket) = false →
  Py.contains "/" c = false →
  _get_openstack_release_string self st = (Ok c, st).
Proof.
  intros Hs Ho Hcolon Hmark Hslash.
  unfold _get_openstack_release_string. rewrite Ho, Hs. cbn [Py.truthy Py.str].
  change (Py.split ":" ("cloud:" +:+ s +:+ "-" +:+ c +:+ "/" +:+ pocket))
    with ("cloud" :: Py.split_from ":" (s +:+ "-" +:+ c +:+ "/" +:+ pocket) 0 "").
  rewrite (split_from_none ":" _ "" Hcolon).
  unfold bind at 1. cbn [item1 lookup list_lookup ret]. cbv beta iota.
  change ("" +:+ s +:+ "-" +:+ c +:+ "/" +:+ pocket)
    with (s +:+ "-" +:+ c +:+ "/" +:+ pocket).
  rewrite <- (str_app_assoc s "-" (c +:+ "/" +:+ pocket)). unfold Py.split.
  rewrite split_from_head by (by destruct s).
  rewrite (split_from_none _ _ "" Hmark).
  unfold bind at 1. cbn [item1 lookup list_lookup ret]. cbv beta iota.
  change ("" +:+ c +:+ "/" +:+ pocket) with (c +:+ "/" +:+ pocket).
  change (String ?a "" +:+ pocket) with (String a pocket).
  rewrite (split_from_until _ c pocket "" Hslash). reflexivity.
Qed.

End CodenameMore.

Lemma release_attributes_assigned_witness :
  attrs (_get_openstack_release Fixture.precise_newton Fixture.st0).2 !! "trusty_kilo"
  = Some (Z.of_nat 8).
Proof.
  apply (proj1 (release_attributes_assigned Fixture.precise_newton Fixture.st0)
           8%nat "trusty_kilo").
  reflexivity.
Defined.

Lemma expected_pools_failure_witness :
  (get_ceph_expected_pools Fixture.precise_newton false Fixture.st0).1 = Raise KeyError.
Proof.
  apply (proj2 (proj2 (expected_pools_failure Fixture.precise_newton false Fixture.st0))).
  vm_compute. reflexivity.
Defined.

Lemma expected_pools_by_release_witness :
  NoDup ["data"; "metadata"; "rbd"; "cinder"; "glance"]
  ∧ "rbd" ∈ ["data"; "metadata"; "rbd"; "cinder"; "glance"]
  ∧ "cinder" ∈ ["data"; "metadata"; "rbd"; "cinder"; "glance"]
  ∧ "glance" ∈ ["data"; "metadata"; "rbd"; "cinder"; "glance"]
  ∧ ∃ c i kilo,
      (_get_openstack_release_string Fixture.trusty_next Fixture.st0).1 = Ok c
      ∧ chronology c = Some i ∧ chronology "kilo" = Some kilo
      ∧ ("data" ∈ ["data"; "metadata"; "rbd"; "cinder"; "glance"] ↔ (i < kilo)%nat)
      ∧ ("metadata" ∈ ["data"; "metadata"; "rbd"; "cinder"; "glance"] ↔ (i < kilo)%nat).
Proof.
  apply (expected_pools_by_release Fixture.trusty_next false Fixture.st0).
  vm_compute. reflexivity.
Defined.

Lemma codename_index_error_witness :
  (∀ e, (_get_openstack_release_string Fixture.precise_newton Fixture.st0).1 = Raise e →
        e = IndexError)
  ∧ ((_get_openstack_release_string Fixture.precise_newton Fixture.st0).1
     = Raise IndexError
     ↔ Py.contains ":" (Py.str (openstack Fixture.precise_newton)) = false
       ∨ ∃ os_origin,
           Py.split ":" (Py.str (openstack Fixture.precise_newton)) !! 1%nat
           = Some os_origin
           ∧ Py.contains (Py.str (series Fixture.precise_newton) +:+ "-") os_origin
             = false).
Proof.
  apply (codename_index_error Fixture.precise_newton Fixture.st0).
  reflexivity.
Defined.

Lemma codename_with_pocket_witness :
  _get_openstack_release_string Fixture.trusty_kilo_proposed Fixture.st0
  = (Ok "kilo", Fixture.st0).
Proof.
  apply (codename_with_pocket Fixture.trusty_kilo_proposed Fixture.st0
           "trusty" "kilo" "proposed").
  - reflexivity.
  - reflexivity.
  - vm_compute. reflexivity.
  - vm_compute. reflexivity.
  - vm_compute. reflexivity.
Defined.
